(** * Flow execution engine of the agent builder

    Shallow embedding of the graph model, of the execution order resolver
    [getExecutionOrder], of the run controller [runFlow] and of the edge
    insertion callback [onConnect] (all in the AgentBuilder component), and
    of the numeric parameter coercions of the generation and vector-store
    routes. *)

From Stdlib Require Import String Ascii List ZArith QArith Lia.
From stdpp Require Import base gmap strings list pretty.

Open Scope string_scope.
Open Scope list_scope.
Set Warnings "-abstract-large-number".

(** ** Graph model *)

(** [Node<NodeData>]: only the fields the engine reads.  [nodeType] is the
    string stored in [data.nodeType] ("Start", "End", "LLM",
    "Web Scraping", ...); [parameters] is [data.parameters], a string to
    string record (an absent key reads as [undefined]). *)
Record Node := mkNode {
  id : string;
  label : string;
  nodeType : string;
  parameters : gmap string string
}.

(** [Edge]: the fields read by the resolver and by [onConnect]. *)
Record Edge := mkEdge {
  source : string;
  target : string
}.

(** [nodes.find((n) => n.data.nodeType === ty)] *)
Definition find_type (ty : string) (nodes : list Node) : option Node :=
  List.find (fun n => String.eqb (nodeType n) ty) nodes.

(** [nodes.find((n) => n.id === i)] *)
Definition find_id (i : string) (nodes : list Node) : option Node :=
  List.find (fun n => String.eqb (id n) i) nodes.

(** [const adjacencyMap = new Map<string, string>();
     edges.forEach((edge) => adjacencyMap.set(edge.source, edge.target));] *)
Definition adjacencyMap (edges : list Edge) : gmap string string :=
  foldl (fun m e => <[source e := target e]> m) ∅ edges.

(** Result of a computation that may not terminate: [OutOfFuel] means the
    [while] loop was still running when the fuel ran out. *)
Inductive outcome (A : Type) :=
| Done (a : A)
| OutOfFuel.
Arguments Done {A} a.
Arguments OutOfFuel {A}.

(** The traversal loop of [getExecutionOrder]:
<<
    while (currentNodeId) {
      const currentNode = nodes.find((n) => n.id === currentNodeId);
      if (!currentNode) break;
      executionOrder.push(currentNode);
      if (currentNode.data.nodeType === "End") break;
      currentNodeId = adjacencyMap.get(currentNodeId);
    }
>>
    [cur = None] is [undefined]; the empty string is falsy as well.  One unit
    of fuel is one evaluation of the loop condition. *)
Fixpoint walk (fuel : nat) (nodes : list Node) (adj : gmap string string)
    (cur : option string) (order : list Node) : outcome (list Node) :=
  match fuel with
  | O => OutOfFuel
  | S fuel' =>
      match cur with
      | None => Done order
      | Some i =>
          if String.eqb i "" then Done order else
          match find_id i nodes with
          | None => Done order
          | Some n =>
              if String.eqb (nodeType n) "End" then Done (order ++ [n])
              else walk fuel' nodes adj (adj !! i) (order ++ [n])
          end
      end
  end.

(** [getExecutionOrder]: [Done None] is the [null] result. *)
Definition getExecutionOrder (fuel : nat) (nodes : list Node) (edges : list Edge)
    : outcome (option (list Node)) :=
  match find_type "Start" nodes with
  | None => Done None
  | Some startNode =>
      match find_type "End" nodes with
      | None => Done None
      | Some _ =>
          match walk fuel nodes (adjacencyMap edges) (Some (id startNode)) [] with
          | OutOfFuel => OutOfFuel
          | Done order =>
              match last order with
              | Some lastNode =>
                  if String.eqb (nodeType lastNode) "End" then Done (Some order)
                  else Done None
              | None => Done None
              end
          end
      end
  end.

(** ** Run controller *)

(** A log entry; the [timestamp] field is wall-clock time and is left out. *)
Record LogEntry := mkLog {
  nodeId : string;
  nodeName : string;
  output : string
}.

(** State threaded through [runFlow]: the log (the [logMessages] React
    state) and the nodes whose remote call was issued, in order. *)
Record RunSt := mkRunSt {
  log : list LogEntry;
  calls : list Node
}.

(** The settled [fetch] of one executor.  [RespOk formatted]: [response.ok],
    with [formatted] the text the executor builds from the body
    ([data.output] for LLM, the extraction, embedding or search report for
    the others).  [RespNotOk error details]: a non-2xx response, with the
    body's [error] and [details] fields ("" when absent).  [RespThrow msg]:
    [fetch] or [response.json()] (or the formatting) threw [Error(msg)]. *)
Inductive Response :=
| RespOk (formatted : string)
| RespNotOk (error details : string)
| RespThrow (message : string).

(** JavaScript [a || b] on strings: the empty string is falsy. *)
Definition or_str (a b : string) : string := if String.eqb a "" then b else a.

(** [params?.k || d] on the node's parameter record. *)
Definition param_or (n : Node) (k d : string) : string :=
  match parameters n !! k with
  | Some v => or_str v d
  | None => d
  end.

Definition nl : string := String (Ascii.ascii_of_nat 10) EmptyString.

(** Output texts of [runFlow] (the leading emoji are left out). *)
Definition validation_text : string :=
  "Error: Flow validation failed. Make sure you have:" +:+ nl +:+
  "1. A Start node" +:+ nl +:+ "2. An End node" +:+ nl +:+
  "3. All nodes connected in a path from Start to End".
Definition started_text (count : nat) : string :=
  "Flow execution started with " +:+ pretty count +:+ " nodes".
Definition start_marker_text : string := "Starting flow execution...".
Definition end_marker_text : string := "Flow execution completed successfully".

Definition system_entry (text : string) : LogEntry := mkLog "system" "System" text.
Definition node_entry (n : Node) (text : string) : LogEntry := mkLog (id n) (label n) text.

(** [setLogMessages((prev) => [...prev, e])] *)
Definition push (e : LogEntry) (st : RunSt) : RunSt :=
  mkRunSt (log st ++ [e]) (calls st).

(** One [try { fetch ... } catch] block of [runFlow]; [errmsg error details]
    is the [data.error || ...] expression of that block.  The boolean is
    [false] on the [return] that stops the run. *)
Definition call_service (respond : Node -> Response) (n : Node)
    (errmsg : string -> string -> string) (st : RunSt) : RunSt * bool :=
  let st' := mkRunSt (log st) (calls st ++ [n]) in
  match respond n with
  | RespOk formatted => (push (node_entry n formatted) st', true)
  | RespNotOk e d => (push (node_entry n ("Error: " +:+ errmsg e d)) st', false)
  | RespThrow m => (push (node_entry n ("Error: " +:+ m)) st', false)
  end.

(** The body of [for (const node of executionOrder)]: the chain of [if]s on
    [node.data.nodeType]; a node of any other type falls through all of
    them. *)
Definition exec_node (respond : Node -> Response) (n : Node) (st : RunSt)
    : RunSt * bool :=
  let ty := nodeType n in
  if String.eqb ty "Start" then (push (node_entry n start_marker_text) st, true)
  else if String.eqb ty "End" then (push (node_entry n end_marker_text) st, true)
  else if String.eqb ty "LLM" then
    call_service respond n (fun e _ => or_str e "Failed to get response") st
  else if String.eqb ty "Web Scraping" then
    call_service respond n (fun e d => or_str e (or_str d "Failed to extract data")) st
  else if String.eqb ty "Embedding Generator" then
    call_service respond n
      (fun e d => or_str e (or_str d "Failed to generate embedding")) st
  else if String.eqb ty "Similarity Search" then
    call_service respond n (fun e d => or_str e (or_str d "Failed to search")) st
  else (st, true).

(** How a run ends: rejected by validation, loop finished, or stopped by the
    [return] after an executor error. *)
Inductive RunEnd := Rejected | Completed | Failed.

Fixpoint exec_seq (respond : Node -> Response) (ns : list Node) (st : RunSt)
    : RunSt * RunEnd :=
  match ns with
  | [] => (st, Completed)
  | n :: ns' =>
      let '(st', continue) := exec_node respond n st in
      if continue then exec_seq respond ns' st' else (st', Failed)
  end.

(** [runFlow]. *)
Definition runFlow (fuel : nat) (respond : Node -> Response)
    (nodes : list Node) (edges : list Edge) : outcome (RunSt * RunEnd) :=
  let st := mkRunSt [] [] in
  match getExecutionOrder fuel nodes edges with
  | OutOfFuel => OutOfFuel
  | Done None => Done (mkRunSt [system_entry validation_text] (calls st), Rejected)
  | Done (Some order) =>
      Done (exec_seq respond order
              (mkRunSt [system_entry (started_text (length order))] (calls st)))
  end.

(** Classification of node types as [runFlow]'s [if] chain treats them. *)
Definition is_marker (n : Node) : bool :=
  String.eqb (nodeType n) "Start" || String.eqb (nodeType n) "End".
Definition is_service (n : Node) : bool :=
  String.eqb (nodeType n) "LLM" || String.eqb (nodeType n) "Web Scraping" ||
  String.eqb (nodeType n) "Embedding Generator" ||
  String.eqb (nodeType n) "Similarity Search".
Definition logged (n : Node) : bool := is_marker n || is_service n.

(** The executor output of a node whose executor succeeds. *)
Definition ok_text (respond : Node -> Response) (n : Node) : string :=
  if String.eqb (nodeType n) "Start" then start_marker_text
  else if String.eqb (nodeType n) "End" then end_marker_text
  else match respond n with RespOk o => o | _ => "" end.

Definition ok_entry (respond : Node -> Response) (n : Node) : LogEntry :=
  node_entry n (ok_text respond n).

(** The remote call of [n], if it has one, succeeds. *)
Definition succeeds (respond : Node -> Response) (n : Node) : Prop :=
  is_service n = true -> exists o, respond n = RespOk o.

(** The remote call of [n] reports a failure. *)
Definition fails (respond : Node -> Response) (n : Node) : Prop :=
  forall o, respond n <> RespOk o.

(** ** Edge insertion *)

(** [addEdge] of the canvas library (@xyflow/react, not part of this
    repository): it returns the edges unchanged when the connection lacks a
    source or a target or when an edge with the same source and target
    already exists, and appends the new edge otherwise (edge ids and
    handles are left out). *)
Definition addEdge (e : Edge) (es : list Edge) : list Edge :=
  if String.eqb (source e) "" || String.eqb (target e) "" then es
  else if existsb (fun el => String.eqb (source el) (source e)
                             && String.eqb (target el) (target e)) es then es
  else es ++ [e].

(** [onConnect]: the state update passed to [setEdges] (the arrow marker and
    stroke style added to the edge are left out). *)
Definition onConnect (params : Edge) (eds : list Edge) : list Edge :=
  let filteredEdges := List.filter (fun e => negb (String.eqb (source e) (source params))) eds in
  addEdge params filteredEdges.

(** ** Numeric parameter coercions *)

(** A JavaScript number; finite values are exact rationals (rounding to
    binary64 and the sign of zero are left out). *)
Inductive JSNum :=
| NaN
| Infinity (negative : bool)
| Fin (q : Q).

(** [x || d] on numbers: [NaN] and zero are falsy. *)
Definition num_or (x d : JSNum) : JSNum :=
  match x with
  | NaN => d
  | Fin q => if Qeq_bool q 0 then d else x
  | Infinity _ => x
  end.

(** StrWhiteSpaceChar restricted to ASCII: TAB, LF, VT, FF, CR, SP. *)
Definition is_ws (c : ascii) : bool :=
  let k := nat_of_ascii c in
  (Nat.leb 9 k && Nat.leb k 13) || Nat.eqb k 32.

Fixpoint trim_start (cs : list ascii) : list ascii :=
  match cs with
  | c :: cs' => if is_ws c then trim_start cs' else cs
  | [] => []
  end.

(** Value of [c] as a digit in [radix] (at most 16). *)
Definition digit_val (radix : nat) (c : ascii) : option nat :=
  let k := nat_of_ascii c in
  let v := if Nat.leb 48 k && Nat.leb k 57 then Some (k - 48)
           else if Nat.leb 97 k && Nat.leb k 102 then Some (k - 87)
           else if Nat.leb 65 k && Nat.leb k 70 then Some (k - 55)
           else None in
  match v with
  | Some d => if Nat.ltb d radix then Some d else None
  | None => None
  end.

(** Longest prefix of digits: their values and the rest. *)
Fixpoint take_digits (radix : nat) (cs : list ascii) : list nat * list ascii :=
  match cs with
  | c :: cs' =>
      match digit_val radix c with
      | Some d => let '(ds, rest) := take_digits radix cs' in (d :: ds, rest)
      | None => ([], cs)
      end
  | [] => ([], [])
  end.

Definition digits_value (radix : nat) (ds : list nat) : Z :=
  fold_left (fun acc d => acc * Z.of_nat radix + Z.of_nat d)%Z ds 0%Z.

(** Optional sign: [true] for '-'. *)
Definition take_sign (cs : list ascii) : bool * list ascii :=
  match cs with
  | "-"%char :: cs' => (true, cs')
  | "+"%char :: cs' => (false, cs')
  | _ => (false, cs)
  end.

(** [parseInt(s)] with no radix argument. *)
Definition parseInt (s : string) : JSNum :=
  let '(neg, cs) := take_sign (trim_start (list_ascii_of_string s)) in
  let '(radix, cs) := match cs with
                      | "0"%char :: ("x"%char | "X"%char) :: cs' => (16, cs')
                      | _ => (10, cs)
                      end in
  match take_digits radix cs with
  | ([], _) => NaN
  | (ds, _) =>
      let v := digits_value radix ds in
      Fin (inject_Z (if neg then Z.opp v else v))
  end.

Definition is_prefix (p cs : list ascii) : bool :=
  String.eqb (string_of_list_ascii p)
    (string_of_list_ascii (firstn (length p) cs)).

(** ExponentPart, when a complete one starts [cs]; [0] otherwise. *)
Definition take_exponent (cs : list ascii) : Z :=
  match cs with
  | ("e"%char | "E"%char) :: cs' =>
      let '(neg, cs'') := take_sign cs' in
      match take_digits 10 cs'' with
      | ([], _) => 0%Z
      | (ds, _) => let v := digits_value 10 ds in if neg then Z.opp v else v
      end
  | _ => 0%Z
  end.

(** [parseFloat(s)]: the longest prefix of the trimmed string that is a
    StrDecimalLiteral. *)
Definition parseFloat (s : string) : JSNum :=
  let '(neg, cs) := take_sign (trim_start (list_ascii_of_string s)) in
  if is_prefix (list_ascii_of_string "Infinity") cs then Infinity neg else
  let '(ds1, rest1) := take_digits 10 cs in
  let '(ds2, rest2) := match rest1 with
                       | "."%char :: r => take_digits 10 r
                       | _ => ([], rest1)
                       end in
  match ds1, ds2 with
  | [], [] => NaN
  | _, _ =>
      let m := digits_value 10 (ds1 ++ ds2) in
      let e := (take_exponent rest2 - Z.of_nat (length ds2))%Z in
      let q := (inject_Z m * Qpower 10 e)%Q in
      Fin (if neg then Qopp q else q)
  end.

(** Body sent by an LLM node to the generation route (from [runFlow]). *)
Record GeminiBody := mkGeminiBody {
  gb_systemInstruction : string;
  gb_userMessage : string;
  gb_temperature : string;
  gb_maxOutputTokens : string;
  gb_topK : string
}.

Definition llm_body (n : Node) : GeminiBody :=
  mkGeminiBody (param_or n "systemInstruction" "") (param_or n "userMessage" "")
    (param_or n "temperature" "0.7") (param_or n "maxOutputTokens" "1024")
    (param_or n "topK" "40").

(** The numbers the generation route puts in [generationConfig]. *)
Record GenerationConfig := mkGenerationConfig {
  cfg_temperature : JSNum;
  cfg_topK : JSNum;
  cfg_maxOutputTokens : JSNum
}.

(** [const parsedTemperature = temperature ? parseFloat(temperature) : 0.7;]
    and its two siblings; the body fields are strings, truthy unless empty. *)
Definition gemini_config (b : GeminiBody) : GenerationConfig :=
  mkGenerationConfig
    (if String.eqb (gb_temperature b) "" then Fin (7 # 10) else parseFloat (gb_temperature b))
    (if String.eqb (gb_topK b) "" then Fin 40 else parseInt (gb_topK b))
    (if String.eqb (gb_maxOutputTokens b) "" then Fin 1024 else parseInt (gb_maxOutputTokens b)).

(** [topK: params?.topK || "5"] in the body of a Similarity Search node,
    then [parseInt(topK) || 5] in the vector-store route. *)
Definition search_topK (n : Node) : JSNum :=
  num_or (parseInt (param_or n "topK" "5")) (Fin 5).

(** ** Paths through the graph *)

(** The loop of [getExecutionOrder] stops on [cur]: no next id, the empty
    id, or an id no node carries. *)
Definition stops (nodes : list Node) (cur : option string) : Prop :=
  match cur with
  | None => True
  | Some i => i = "" \/ find_id i nodes = None
  end.

(** [walk_chain nodes adj p]: the nodes met by following [adj] from the
    head of [p], up to an End node or up to a node where the walk stops. *)
Inductive walk_chain (nodes : list Node) (adj : gmap string string) : list Node -> Prop :=
| wc_end (n : Node) :
    id n <> "" -> find_id (id n) nodes = Some n -> nodeType n = "End" ->
    walk_chain nodes adj [n]
| wc_stop (n : Node) :
    id n <> "" -> find_id (id n) nodes = Some n -> nodeType n <> "End" ->
    stops nodes (adj !! id n) ->
    walk_chain nodes adj [n]
| wc_step (n m : Node) (p : list Node) :
    id n <> "" -> find_id (id n) nodes = Some n -> nodeType n <> "End" ->
    adj !! id n = Some (id m) ->
    walk_chain nodes adj (m :: p) ->
    walk_chain nodes adj (n :: m :: p).

(** [edge_chain nodes edges p]: [p] is a path of the graph that reaches an
    End node, each earlier node having a unique outgoing edge, to the next
    node of [p]. *)
Inductive edge_chain (nodes : list Node) (edges : list Edge) : list Node -> Prop :=
| ec_end (n : Node) :
    id n <> "" -> find_id (id n) nodes = Some n -> nodeType n = "End" ->
    edge_chain nodes edges [n]
| ec_step (n m : Node) (p : list Node) :
    id n <> "" -> find_id (id n) nodes = Some n -> nodeType n <> "End" ->
    In (mkEdge (id n) (id m)) edges ->
    (forall e, In e edges -> source e = id n -> target e = id m) ->
    edge_chain nodes edges (m :: p) ->
    edge_chain nodes edges (n :: m :: p).

(** Value equality of JavaScript numbers ([NaN] equal to itself here). *)
Definition num_eqb (x y : JSNum) : bool :=
  match x, y with
  | NaN, NaN => true
  | Infinity a, Infinity b => Bool.eqb a b
  | Fin p, Fin q => Qeq_bool p q
  | _, _ => false
  end.

(** Reachability along edges, whatever the number of outgoing edges. *)
Inductive reaches (edges : list Edge) : string -> string -> Prop :=
| reaches_refl (a : string) : reaches edges a a
| reaches_step (a b c : string) :
    In (mkEdge a b) edges -> reaches edges b c -> reaches edges a c.

(** ** Editor state of the AgentBuilder component *)

(** [getNodeId]: [counter] is [nodeIdRef.current]; the id is built from the
    value before the increment. *)
Definition getNodeId (counter : nat) : string * nat :=
  ("node_" +:+ pretty counter, S counter).

(** [addNode(nodeType)] on the [nodes] state and [nodeIdRef.current] (the
    random position, the React Flow [type] field and the reset of the type
    picker are left out).  The label reads the counter after
    [getNodeId] has incremented it. *)
Definition addNode (nodeType : string) (nodes : list Node) (counter : nat)
    : list Node * nat :=
  if String.eqb nodeType "" then (nodes, counter) else
  let '(i, counter') := getNodeId counter in
  (nodes ++ [mkNode i ("Node " +:+ pretty counter') nodeType ∅], counter').

(** Every id on the canvas was issued by [getNodeId] below [counter], and no
    two nodes share an id. *)
Definition ids_issued (counter : nat) (nodes : list Node) : Prop :=
  NoDup (map id nodes) /\
  forall n, In n nodes -> exists k, k < counter /\ id n = "node_" +:+ pretty k.

(** A node or an edge of the canvas with its [selected] flag (absent reads
    as [false]). *)
Record CanvasNode := mkCanvasNode {
  cn_node : Node;
  cn_selected : bool
}.
Record CanvasEdge := mkCanvasEdge {
  ce_edge : Edge;
  ce_selected : bool
}.

(** The fields of [event.target] the key handler reads. *)
Record KeyTarget := mkKeyTarget {
  tagName : string;
  isContentEditable : bool
}.

(** [handleKeyDown] of the keyboard-delete effect: the new [nodes] and
    [edges] states.  The edge filter reads the [nodes] of the render that
    installed the listener, taken here to be the current nodes; [tgt] is
    [event.target]. *)
Definition handleKeyDown (key : string) (tgt : KeyTarget)
    (nodes : list CanvasNode) (edges : list CanvasEdge)
    : list CanvasNode * list CanvasEdge :=
  if String.eqb key "Delete" || String.eqb key "Backspace" then
    if String.eqb (tagName tgt) "INPUT" || String.eqb (tagName tgt) "TEXTAREA"
       || isContentEditable tgt then (nodes, edges)
    else
      let exists_live (i : string) :=
        existsb (fun n => String.eqb (id (cn_node n)) i && negb (cn_selected n)) nodes in
      (List.filter (fun n => negb (cn_selected n)) nodes,
       List.filter (fun e => exists_live (source (ce_edge e)) && exists_live (target (ce_edge e))
                             && negb (ce_selected e)) edges)
  else (nodes, edges).

(** The parameter editor: the [expandedNode] and [nodeParameters] states. *)
Record Modal := mkModal {
  expandedNode : option string;
  nodeParameters : gmap string string
}.

Definition modal_closed : Modal := mkModal None ∅.

(** [handleExpandNode] on an [expandNode] event for [nodeId]. *)
Definition handleExpandNode (nodeId : string) (nodes : list Node) (m : Modal) : Modal :=
  match find_id nodeId nodes with
  | Some n => mkModal (Some nodeId) (parameters n)
  | None => m
  end.

(** The [onChange] of a field of the editor:
    [setNodeParameters({...nodeParameters, [fieldKey]: e.target.value})]. *)
Definition setField (fieldKey v : string) (m : Modal) : Modal :=
  mkModal (expandedNode m) (<[fieldKey := v]> (nodeParameters m)).

(** [{...node, data: {...node.data, parameters: ps}}] *)
Definition with_parameters (n : Node) (ps : gmap string string) : Node :=
  mkNode (id n) (label n) (nodeType n) ps.

(** [{...node, data: {...node.data, label: l}}] *)
Definition with_label (n : Node) (l : string) : Node :=
  mkNode (id n) l (nodeType n) (parameters n).

(** [updateNodeParameters]: the new [nodes] and the closed editor.  The
    [if (expandedNode)] test fails on the empty id. *)
Definition updateNodeParameters (nodes : list Node) (m : Modal) : list Node * Modal :=
  let nodes' :=
    match expandedNode m with
    | Some e =>
        if String.eqb e "" then nodes
        else map (fun n => if String.eqb (id n) e then with_parameters n (nodeParameters m)
                           else n) nodes
    | None => nodes
    end in
  (nodes', modal_closed).

(** [String.prototype.trim] on the ASCII white space of [is_ws]. *)
Definition trim_end (cs : list ascii) : list ascii := rev (trim_start (rev cs)).
Definition js_trim (cs : list ascii) : list ascii := trim_end (trim_start cs).
Definition trim (s : string) : string :=
  string_of_list_ascii (js_trim (list_ascii_of_string s)).

(** The rename dialog: the [editingNode] and [nodeName] states
    ([rn_nodeName], since [nodeName] names the log entry field). *)
Record Rename := mkRename {
  editingNode : option string;
  rn_nodeName : string
}.

(** [onNodeDoubleClick(_, node)] *)
Definition onNodeDoubleClick (n : Node) (r : Rename) : Rename :=
  mkRename (Some (id n)) (label n).

(** The [onChange] of the name field: [setNodeName(e.target.value)]. *)
Definition setNodeName (s : string) (r : Rename) : Rename :=
  mkRename (editingNode r) s.

(** [updateNodeName]: the label is set to the untrimmed [nodeName]. *)
Definition updateNodeName (nodes : list Node) (r : Rename) : list Node * Rename :=
  let nodes' :=
    match editingNode r with
    | Some e =>
        if negb (String.eqb e "") && negb (String.eqb (trim (rn_nodeName r)) "") then
          map (fun n => if String.eqb (id n) e then with_label n (rn_nodeName r) else n) nodes
        else nodes
    | None => nodes
    end in
  (nodes', mkRename None "").

(** The ids of an execution order. *)
Definition order_ids (o : outcome (option (list Node))) : outcome (option (list string)) :=
  match o with
  | Done r => Done (option_map (map id) r)
  | OutOfFuel => OutOfFuel
  end.

(** ** API routes *)

(** A settled promise: [Fulfilled a], or [Threw msg] for a rejection with
    [Error(msg)]. *)
Inductive Settled (A : Type) :=
| Fulfilled (a : A)
| Threw (message : string).
Arguments Fulfilled {A} a.
Arguments Threw {A} message.

(** A JSON value. *)
#[warnings="-register-all"] Inductive JVal :=
| JNull
| JBool (b : bool)
| JNum (n : JSNum)
| JStr (s : string)
| JArr (xs : list JVal)
| JObj (kvs : list (string * JVal)).

(** [NextResponse.json(body, { status })]. *)
Record Reply := mkReply {
  status : nat;
  body : JVal
}.

Fixpoint assoc {A : Type} (k : string) (l : list (string * A)) : option A :=
  match l with
  | [] => None
  | (k', v) :: l' => if String.eqb k k' then Some v else assoc k l'
  end.

(** [data.k] read as a string; absent and non-string values read as "". *)
Definition jstr (k : string) (v : JVal) : string :=
  match v with
  | JObj kvs => match assoc k kvs with Some (JStr s) => s | _ => "" end
  | _ => ""
  end.

(** What an executor of [runFlow] makes of a reply: [response.ok] and the
    text [fmt] builds from the body, or the body's [error] and [details]. *)
Definition response_of_reply (fmt : JVal -> string) (r : Reply) : Response :=
  if Nat.leb 200 (status r) && Nat.leb (status r) 299 then RespOk (fmt (body r))
  else RespNotOk (jstr "error" (body r)) (jstr "details" (body r)).

(** A request field: absent, or a string. *)
Definition str_of (o : option string) : string :=
  match o with Some s => s | None => "" end.
Definition truthy (o : option string) : bool := negb (String.eqb (str_of o) "").

(** The [catch] of the generation routes. *)
Definition internal_error (m : string) : Reply :=
  mkReply 500 (JObj [("error", JStr "Internal server error"); ("details", JStr m)]).

(** *** Generation route *)

(** The fields destructured from [await request.json()]. *)
Record GeminiRequest := mkGeminiRequest {
  rq_systemInstruction : option string;
  rq_systemPrompt : option string;
  rq_userMessage : option string;
  rq_temperature : option string;
  rq_maxOutputTokens : option string;
  rq_topK : option string
}.

(** The upstream call: [response.ok] with
    [data.candidates?.[0]?.content?.parts?.[0]?.text] ([None] when a link is
    missing); a non-ok status with its JSON body; or a rejection of [fetch]
    or of [response.json()]. *)
Inductive GeminiUpstream :=
| GUOk (text : option string)
| GUNotOk (status : nat) (errorData : JVal)
| GUThrow (message : string).

(** The request body sent upstream (its [topP] is the constant 0.95). *)
Record GeminiCall := mkGeminiCall {
  gc_text : string;
  gc_config : GenerationConfig;
  gc_systemInstruction : option string
}.

(** [POST] of the generation route; the second component is the upstream
    call made, if any. *)
Definition gemini_route (apiKey : string) (req : Settled GeminiRequest)
    (up : GeminiUpstream) : Reply * option GeminiCall :=
  match req with
  | Threw m => (internal_error m, None)
  | Fulfilled rq =>
      if negb (truthy (rq_userMessage rq)) then
        (mkReply 400 (JObj [("error", JStr "userMessage is required.")]), None)
      else if String.eqb apiKey "" then
        (mkReply 500 (JObj [("error", JStr "GEMINI_API_KEY not configured")]), None)
      else
        let cfg := gemini_config (mkGeminiBody "" (str_of (rq_userMessage rq))
                     (str_of (rq_temperature rq)) (str_of (rq_maxOutputTokens rq))
                     (str_of (rq_topK rq))) in
        let instruction := if truthy (rq_systemInstruction rq) then rq_systemInstruction rq
                           else rq_systemPrompt rq in
        let call := mkGeminiCall (str_of (rq_userMessage rq)) cfg
                      (if truthy instruction then instruction else None) in
        let reply :=
          match up with
          | GUOk t =>
              mkReply 200 (JObj [("output", JStr (or_str (str_of t) "No response generated"))])
          | GUNotOk s e => mkReply s (JObj [("error", JStr "Gemini API error"); ("details", e)])
          | GUThrow m => internal_error m
          end in
        (reply, Some call)
  end.

(** The body an LLM node of [runFlow] sends. *)
Definition gemini_request_of (b : GeminiBody) : GeminiRequest :=
  mkGeminiRequest (Some (gb_systemInstruction b)) None (Some (gb_userMessage b))
    (Some (gb_temperature b)) (Some (gb_maxOutputTokens b)) (Some (gb_topK b)).

(** The LLM executor of [runFlow] talking to the generation route. *)
Definition llm_respond (apiKey : string) (up : GeminiUpstream) (n : Node) : Response :=
  response_of_reply (jstr "output")
    (fst (gemini_route apiKey (Fulfilled (gemini_request_of (llm_body n))) up)).

(** *** Structured-output route: clean-up of the model text *)

Definition lf : ascii := Ascii.ascii_of_nat 10.
Definition tick : ascii := "`"%char.

(** [s.replace(/```json\n?/g, "")] *)
Fixpoint strip_json_fences (cs : list ascii) : list ascii :=
  match cs with
  | "`"%char :: "`"%char :: "`"%char :: "j"%char :: "s"%char :: "o"%char :: "n"%char :: rest =>
      match rest with
      | c :: r => if Ascii.eqb c lf then strip_json_fences r else strip_json_fences rest
      | [] => []
      end
  | c :: rest => c :: strip_json_fences rest
  | [] => []
  end.

(** [s.replace(/```\n?/g, "")] *)
Fixpoint strip_fences (cs : list ascii) : list ascii :=
  match cs with
  | a :: ((b :: c :: rest) as tl) =>
      if Ascii.eqb a tick && Ascii.eqb b tick && Ascii.eqb c tick then
        match rest with
        | d :: r => if Ascii.eqb d lf then strip_fences r else strip_fences rest
        | [] => []
        end
      else a :: strip_fences tl
  | a :: tl => a :: strip_fences tl
  | [] => []
  end.

(** [parsedText] before [JSON.parse]: the model text, or its fallback, with
    the fences removed and trimmed. *)
Definition clean_output (text : option string) : string :=
  let t := or_str (str_of text) "No output generated" in
  string_of_list_ascii (js_trim (strip_fences (strip_json_fences (list_ascii_of_string t)))).

(** Three backticks somewhere in [cs]. *)
Fixpoint has_fence (cs : list ascii) : bool :=
  match cs with
  | a :: ((b :: c :: _) as tl) =>
      (Ascii.eqb a tick && Ascii.eqb b tick && Ascii.eqb c tick) || has_fence tl
  | _ => false
  end.

(** *** Vector-store route *)

Record PineconeRequest := mkPineconeRequest {
  pr_action : option string;
  pr_text : option string;
  pr_source : option string;
  pr_info : option string;
  pr_tag : option string;
  pr_workflow : option string;
  pr_nodeId : option string;
  pr_query : option string;
  pr_topK : option string
}.

(** [embeddings.data?.[0]]: a dense vector, another format, or absent. *)
Inductive EmbedData :=
| EmbDense (values : list Q)
| EmbOther
| EmbMissing.

(** A match returned by [index.query]. *)
Record PcMatch := mkPcMatch {
  m_id : string;
  m_score : option Q;
  m_metadata : option (list (string * string))
}.

(** The answers of the Pinecone service and the configuration. *)
Record PineconeEnv := mkPineconeEnv {
  pe_apiKey : string;
  pe_embed : string -> Settled EmbedData;
  pe_upsert : Settled unit;
  pe_query : Settled (option (list PcMatch))
}.

(** The operations sent to Pinecone, in order. *)
Inductive PcOp :=
| PcEmbed (text : string)
| PcUpsert (vid : string) (values : list Q) (metadata : list (string * string))
| PcQuery (values : list Q) (topK : JSNum).

(** [generateEmbedding(text)] (with its [getPineconeClient()]). *)
Definition generateEmbedding (env : PineconeEnv) (text : string) : Settled (list Q) * list PcOp :=
  if String.eqb (pe_apiKey env) "" then (Threw "PINECONE_API_KEY is not configured", [])
  else
    (match pe_embed env text with
     | Threw m => Threw m
     | Fulfilled EmbMissing => Threw "Failed to generate embedding"
     | Fulfilled EmbOther => Threw "Unexpected embedding format"
     | Fulfilled (EmbDense v) => Fulfilled v
     end, [PcEmbed text]).

(** [if (k) metadata.k = k;] *)
Definition opt_field (k : string) (o : option string) : list (string * string) :=
  if truthy o then [(k, str_of o)] else [].

(** The [metadata] record of the embed action, in insertion order;
    [timestamp] is [new Date().toISOString()].  [substring] counts the
    characters of the string model. *)
Definition embed_metadata (rq : PineconeRequest) (timestamp : string) : list (string * string) :=
  [("text", substring 0 40000 (str_of (pr_text rq)));
   ("nodeId", or_str (str_of (pr_nodeId rq)) "unknown");
   ("timestamp", timestamp)]
  ++ opt_field "source" (pr_source rq) ++ opt_field "info" (pr_info rq)
  ++ opt_field "tag" (pr_tag rq) ++ opt_field "workflow" (pr_workflow rq).

(** [parseInt(topK) || 5]; an absent [topK] is converted to "undefined". *)
Definition route_topK (topK : option string) : JSNum :=
  num_or (parseInt (match topK with Some s => s | None => "undefined" end)) (Fin 5).

(** One element of the [matches] array of a search reply ([score] is
    dropped by [JSON.stringify] when undefined). *)
Definition format_match (m : PcMatch) : JVal :=
  let md k := match m_metadata m with Some md => str_of (assoc k md) | None => "" end in
  JObj ([("id", JStr (m_id m))] ++
        (match m_score m with Some q => [("score", JNum (Fin q))] | None => [] end) ++
        [("text", JStr (md "text")); ("source", JStr (md "source")); ("info", JStr (md "info"));
         ("tag", JStr (md "tag")); ("workflow", JStr (md "workflow"));
         ("nodeId", JStr (md "nodeId")); ("timestamp", JStr (md "timestamp"))]).

Definition pinecone_failed (m : string) : Reply :=
  mkReply 500 (JObj [("success", JBool false); ("error", JStr "Pinecone operation failed");
                     ("details", JStr m)]).

Definition bad_request (msg : string) : Reply := mkReply 400 (JObj [("error", JStr msg)]).

(** [POST] of the vector-store route; [vid] is the generated
    [emb_${Date.now()}_...] id. *)
Definition pinecone_route (env : PineconeEnv) (vid timestamp : string)
    (req : Settled PineconeRequest) : Reply * list PcOp :=
  match req with
  | Threw m => (pinecone_failed m, [])
  | Fulfilled rq =>
      if String.eqb (str_of (pr_action rq)) "embed" then
        if negb (truthy (pr_text rq)) then (bad_request "Text is required for embedding", [])
        else if String.eqb (pe_apiKey env) "" then
          (pinecone_failed "PINECONE_API_KEY is not configured", [])
        else
          let '(r, ops) := generateEmbedding env (str_of (pr_text rq)) in
          match r with
          | Threw m => (pinecone_failed m, ops)
          | Fulfilled v =>
              let md := embed_metadata rq timestamp in
              let ops' := ops ++ [PcUpsert vid v md] in
              match pe_upsert env with
              | Threw m => (pinecone_failed m, ops')
              | Fulfilled _ =>
                  (mkReply 200 (JObj [("success", JBool true); ("id", JStr vid);
                     ("dimension", JNum (Fin (inject_Z (Z.of_nat (length v)))));
                     ("metadata", JObj (map (fun kv => (fst kv, JStr (snd kv))) md));
                     ("message", JStr "Embedding created and stored in Pinecone")]), ops')
              end
          end
      else if String.eqb (str_of (pr_action rq)) "search" then
        if negb (truthy (pr_query rq)) then
          (bad_request "Query is required for similarity search", [])
        else if String.eqb (pe_apiKey env) "" then
          (pinecone_failed "PINECONE_API_KEY is not configured", [])
        else
          let k := route_topK (pr_topK rq) in
          let '(r, ops) := generateEmbedding env (str_of (pr_query rq)) in
          match r with
          | Threw m => (pinecone_failed m, ops)
          | Fulfilled v =>
              let ops' := ops ++ [PcQuery v k] in
              match pe_query env with
              | Threw m => (pinecone_failed m, ops')
              | Fulfilled ms =>
                  let matches := match ms with Some l => map format_match l | None => [] end in
                  (mkReply 200 (JObj [("success", JBool true); ("query", JStr (str_of (pr_query rq)));
                     ("topK", JNum k);
                     ("resultsCount", JNum (Fin (inject_Z (Z.of_nat (length matches)))));
                     ("matches", JArr matches)]), ops')
              end
          end
      else (bad_request "Invalid action. Use 'embed' or 'search'", [])
  end.

(** The bodies the Embedding Generator and Similarity Search nodes of
    [runFlow] send. *)
Definition embed_request_of (n : Node) : PineconeRequest :=
  mkPineconeRequest (Some "embed") (Some (param_or n "text" "")) (Some (param_or n "source" ""))
    (Some (param_or n "info" "")) (Some (param_or n "tag" "")) (Some (param_or n "workflow" ""))
    (Some (id n)) None None.
Definition search_request_of (n : Node) : PineconeRequest :=
  mkPineconeRequest (Some "search") None None None None None None
    (Some (param_or n "query" "")) (Some (param_or n "topK" "5")).

(** The Embedding Generator executor of [runFlow] talking to the
    vector-store route; [fmt] builds the logged text from a success body. *)
Definition embed_respond (env : PineconeEnv) (vid timestamp : string) (fmt : JVal -> string)
    (n : Node) : Response :=
  response_of_reply fmt (fst (pinecone_route env vid timestamp (Fulfilled (embed_request_of n)))).

(** *** Web-scraping route *)

(** The configuration and the answers of the browser session. *)
Record ScrapeEnv := mkScrapeEnv {
  se_apiKey : string;
  se_projectId : string;
  se_geminiKey : string;
  se_init : Settled unit;
  se_goto : Settled unit;
  se_extract : Settled JVal;
  se_close : Settled unit
}.

(** Operations on the Stagehand session, in order. *)
Inductive BrowserOp :=
| BInit
| BGoto (url : string)
| BExtract (instruction : string)
| BClose.

Definition scrape_failed (m : string) : Reply :=
  mkReply 500 (JObj [("success", JBool false); ("error", JStr "Web scraping failed");
                     ("details", JStr m)]).

(** [POST] of the web-scraping route on the [{url, instruction}] body. *)
Definition webScrape_route (env : ScrapeEnv) (req : Settled (option string * option string))
    : Reply * list BrowserOp :=
  match req with
  | Threw m => (scrape_failed m, [])
  | Fulfilled (url, instruction) =>
      if negb (truthy url) || negb (truthy instruction) then
        (mkReply 400 (JObj [("success", JBool false);
                            ("error", JStr "url and instruction are required")]), [])
      else if String.eqb (se_apiKey env) "" || String.eqb (se_projectId env) "" then
        (mkReply 500 (JObj [("success", JBool false);
           ("error", JStr "BROWSERBASE_API_KEY and BROWSERBASE_PROJECT_ID not configured")]), [])
      else if String.eqb (se_geminiKey env) "" then
        (mkReply 500 (JObj [("success", JBool false); ("error", JStr "GEMINI_API_KEY not configured")]), [])
      else
        let u := str_of url in
        let i := str_of instruction in
        match se_init env with
        | Threw m => (scrape_failed m, [BInit])
        | Fulfilled _ =>
            match se_goto env with
            | Threw m => (scrape_failed m, [BInit; BGoto u])
            | Fulfilled _ =>
                match se_extract env with
                | Threw m => (scrape_failed m, [BInit; BGoto u; BExtract i])
                | Fulfilled result =>
                    match se_close env with
                    | Threw m => (scrape_failed m, [BInit; BGoto u; BExtract i; BClose])
                    | Fulfilled _ =>
                        (mkReply 200 (JObj [("success", JBool true); ("url", JStr u);
                           ("instruction", JStr i); ("data", result)]),
                         [BInit; BGoto u; BExtract i; BClose])
                    end
                end
            end
        end
  end.

(** ** Sample graphs and responses *)

Definition nd (i ty : string) : Node := mkNode i i ty ∅.

Definition g_start := nd "node_0" "Start".
Definition g_llm := nd "node_1" "LLM".
Definition g_end := nd "node_2" "End".
Definition g_input := nd "node_3" "Input".
Definition g_start2 := nd "node_4" "Start".

(** Every remote call succeeds. *)
Definition all_ok (n : Node) : Response := RespOk ("out of " +:+ id n).

(** The generation call of node_1 answers with an HTTP error. *)
Definition fail_llm (n : Node) : Response :=
  if String.eqb (id n) "node_1" then RespNotOk "quota exceeded" "" else all_ok n.

(** Start -> LLM, and the LLM node connected to itself. *)
Definition cyc_nodes : list Node := [g_start; g_llm; g_end].
Definition cyc_edges : list Edge := [mkEdge "node_0" "node_1"; mkEdge "node_1" "node_1"].

(** An LLM node with unparsable numeric parameters, one with none, and a
    Similarity Search node with an unparsable topK. *)
Definition llm_bad : Node :=
  mkNode "node_1" "LLM" "LLM"
    (<["userMessage" := "Hi"]> (<["temperature" := "abc"]>
      (<["maxOutputTokens" := "lots"]> (<["topK" := "many"]> ∅)))).
Definition llm_blank : Node :=
  mkNode "node_1" "LLM" "LLM" (<["userMessage" := "Hi"]> (<["temperature" := ""]> ∅)).
(** A vector-store service that answers every call, and an Embedding
    Generator node with no text. *)
Definition pc_env : PineconeEnv :=
  mkPineconeEnv "key" (fun _ => Fulfilled (EmbDense [1; 2]%Q)) (Fulfilled tt) (Fulfilled (Some [])).
Definition embed_blank : Node :=
  mkNode "node_6" "Embed" "Embedding Generator" (<["source" := "docs"]> ∅).

(** An Embedding Generator node with a text, no tag and no workflow, and a
    Similarity Search node asking for zero results. *)
Definition embed_blank' : Node :=
  mkNode "node_7" "Embed" "Embedding Generator" (<["text" := "agents"]> (<["info" := "faq"]> ∅)).
Definition search_zero : Node :=
  mkNode "node_8" "Search" "Similarity Search" (<["query" := "agents"]> (<["topK" := "0"]> ∅)).

(** A configured browser service whose navigation fails. *)
Definition scrape_nav_fails : ScrapeEnv :=
  mkScrapeEnv "bb-key" "bb-project" "gm-key" (Fulfilled tt) (Threw "net::ERR_NAME_NOT_RESOLVED")
    (Fulfilled JNull) (Fulfilled tt).

(** An LLM node whose user message is blank. *)
Definition llm_bad_msg : Node :=
  mkNode "node_1" "LLM" "LLM" (<["userMessage" := ""]> (<["topK" := "3"]> ∅)).
Definition search_bad : Node :=
  mkNode "node_5" "Search" "Similarity Search"
    (<["query" := "agents"]> (<["topK" := "many"]> ∅)).

(** ** Examples *)

Example resolve_simple :
  getExecutionOrder 10 [g_start; g_llm; g_end]
    [mkEdge "node_0" "node_1"; mkEdge "node_1" "node_2"]
  = Done (Some [g_start; g_llm; g_end]).
Proof. vm_compute. reflexivity. Qed.

Example resolve_dead_end :
  getExecutionOrder 10 [g_start; g_llm; g_end] [mkEdge "node_0" "node_1"]
  = Done None.
Proof. vm_compute. reflexivity. Qed.

Example run_simple :
  runFlow 10 all_ok [g_start; g_llm; g_end]
    [mkEdge "node_0" "node_1"; mkEdge "node_1" "node_2"]
  = Done (mkRunSt [system_entry (started_text 3);
                   node_entry g_start start_marker_text;
                   node_entry g_llm "out of node_1";
                   node_entry g_end end_marker_text] [g_llm], Completed).
Proof. vm_compute. reflexivity. Qed.

Example parse_samples :
  zip_with num_eqb
    (map parseFloat ["0.7"; "  -1.5e2x"; ".5"; "abc"; "1e"; "-Infinityz"])
    [Fin (7 # 10); Fin (-150); Fin (1 # 2); NaN; Fin 1; Infinity true]
  = [true; true; true; true; true; true] /\
  zip_with num_eqb (map parseInt ["42"; " 0x1F"; "-7.9"; ""; "x1"])
    [Fin 42; Fin 31; Fin (-7); NaN; NaN] = [true; true; true; true; true].
Proof. split; vm_compute; reflexivity. Qed.

(** ** Resolver lemmas *)

Lemma find_id_some (i : string) (nodes : list Node) (n : Node) :
  find_id i nodes = Some n -> In n nodes /\ id n = i.
Proof.
  unfold find_id. intros H. apply find_some in H as [Hin Heq].
  split; [exact Hin|]. by apply String.eqb_eq.
Qed.

Lemma find_type_exists (ty : string) (nodes : list Node) (n : Node) :
  In n nodes -> nodeType n = ty -> exists m, find_type ty nodes = Some m.
Proof.
  intros Hin Hty. unfold find_type.
  destruct (List.find _ nodes) as [m|] eqn:E; [eauto|].
  pose proof (find_none _ _ E n Hin) as Hf. simpl in Hf.
  rewrite Hty, String.eqb_refl in Hf. discriminate.
Qed.

Lemma adjacencyMap_snoc (es : list Edge) (e : Edge) :
  adjacencyMap (es ++ [e]) = <[source e := target e]> (adjacencyMap es).
Proof. unfold adjacencyMap. by rewrite foldl_app. Qed.

(** The adjacency map holds, for a source, the target of the last edge of
    the array with that source. *)
Lemma adjacencyMap_lookup (es : list Edge) (s : string) :
  adjacencyMap es !! s =
  option_map target (last (List.filter (fun e => String.eqb (source e) s) es)).
Proof.
  induction es as [|e es IH] using rev_ind; [done|].
  rewrite adjacencyMap_snoc, List.filter_app. simpl.
  destruct (String.eqb_spec (source e) s) as [<-|Hne].
  - by rewrite lookup_insert_eq, last_snoc.
  - rewrite lookup_insert_ne by done. by rewrite app_nil_r.
Qed.

Lemma adjacencyMap_unique_out (es : list Edge) (s t : string) :
  In (mkEdge s t) es ->
  (forall e, In e es -> source e = s -> target e = t) ->
  adjacencyMap es !! s = Some t.
Proof.
  intros Hin Huniq. rewrite adjacencyMap_lookup.
  destruct (last _) as [e|] eqn:E.
  - apply last_Some_elem_of, list_elem_of_In, filter_In in E as [He Hs].
    simpl. f_equal. apply Huniq; [done|]. by apply String.eqb_eq.
  - apply last_None in E.
    assert (In (mkEdge s t) (List.filter (fun e => String.eqb (source e) s) es)) as H.
    { apply filter_In. simpl. by rewrite String.eqb_refl. }
    by rewrite E in H.
Qed.

Lemma edge_chain_walk_chain (nodes : list Node) (edges : list Edge) (p : list Node) :
  edge_chain nodes edges p -> walk_chain nodes (adjacencyMap edges) p.
Proof.
  induction 1.
  - by apply wc_end.
  - apply wc_step; auto. by apply adjacencyMap_unique_out.
Qed.

Lemma edge_chain_last (nodes : list Node) (edges : list Edge) (p : list Node) :
  edge_chain nodes edges p ->
  exists n, last p = Some n /\ In n nodes /\ nodeType n = "End".
Proof.
  induction 1 as [n Hid Hf Hty|n m p Hid Hf Hty Hin Hu Hc IH].
  - exists n. split; [done|]. split; [|done]. by apply (find_id_some (id n)).
  - destruct IH as (x & Hl & Hx). exists x. split; [|done].
    by rewrite last_cons, Hl.
Qed.

Lemma walk_chain_in (nodes : list Node) (adj : gmap string string) (p : list Node) :
  walk_chain nodes adj p -> forall x, In x p -> In x nodes.
Proof.
  induction 1 as [n _ Hf _|n _ Hf _ _|n m p _ Hf _ _ _ IH]; intros x Hx.
  - destruct Hx as [<-|[]]. by apply (find_id_some (id n)).
  - destruct Hx as [<-|[]]. by apply (find_id_some (id n)).
  - destruct Hx as [<-|Hx]; [by apply (find_id_some (id n))|]. by apply IH.
Qed.

(** One iteration of the loop on a found, non-End node. *)
Lemma walk_step (fuel : nat) (nodes : list Node) (adj : gmap string string)
    (i : string) (acc : list Node) (n : Node) :
  i <> "" -> find_id i nodes = Some n -> nodeType n <> "End" ->
  walk (S fuel) nodes adj (Some i) acc = walk fuel nodes adj (adj !! i) (acc ++ [n]).
Proof.
  intros Hid Hf Hty. simpl.
  apply String.eqb_neq in Hid, Hty. by rewrite Hid, Hf, Hty.
Qed.

(** Following a chain of [length p] nodes takes [S (length p)] tests of
    the loop condition. *)
Lemma walk_chain_run (nodes : list Node) (adj : gmap string string) (p : list Node) :
  walk_chain nodes adj p ->
  forall n p', p = n :: p' -> forall f acc,
  walk (S (length p) + f) nodes adj (Some (id n)) acc = Done (acc ++ p).
Proof.
  induction 1 as [n Hid Hf Hty|n Hid Hf Hty Hs|n m p Hid Hf Hty Hadj Hc IH];
    intros n0 p' Heq f acc; injection Heq as <- <-.
  - simpl. apply String.eqb_neq in Hid. rewrite Hid, Hf, Hty. done.
  - simpl. apply String.eqb_neq in Hid. rewrite Hid, Hf.
    apply String.eqb_neq in Hty. rewrite Hty.
    destruct (adj !! id n) as [i|]; simpl in Hs |- *; [|done].
    destruct Hs as [->|Hn]; [done|].
    destruct (String.eqb i ""); [done|]. by rewrite Hn.
  - change (S (length (n :: m :: p)) + f) with (S (S (length (m :: p)) + f)).
    rewrite (walk_step _ _ _ _ _ n Hid Hf Hty), Hadj.
    rewrite (IH m p eq_refl f (acc ++ [n])). by rewrite <- app_assoc.
Qed.

(** More fuel never changes a finished walk. *)
Lemma walk_mono (fuel fuel' : nat) (nodes : list Node) (adj : gmap string string)
    (cur : option string) (acc r : list Node) :
  walk fuel nodes adj cur acc = Done r -> fuel <= fuel' ->
  walk fuel' nodes adj cur acc = Done r.
Proof.
  revert fuel' cur acc. induction fuel as [|fuel IH]; intros fuel' cur acc H Hle;
    [discriminate|].
  destruct fuel' as [|fuel']; [lia|]. simpl in H |- *.
  destruct cur as [i|]; [|done].
  destruct (String.eqb i ""); [done|].
  destruct (find_id i nodes) as [n|]; [|done].
  destruct (String.eqb (nodeType n) "End"); [done|].
  apply IH; [done|lia].
Qed.

Lemma getExecutionOrder_mono (fuel fuel' : nat) (nodes : list Node) (edges : list Edge)
    (r : option (list Node)) :
  getExecutionOrder fuel nodes edges = Done r -> fuel <= fuel' ->
  getExecutionOrder fuel' nodes edges = Done r.
Proof.
  unfold getExecutionOrder. intros H Hle.
  destruct (find_type "Start" nodes) as [s|]; [|done].
  destruct (find_type "End" nodes) as [e|]; [|done].
  destruct (walk fuel _ _ _ _) as [order|] eqn:W; [|discriminate].
  by rewrite (walk_mono _ _ _ _ _ _ _ W Hle).
Qed.

Lemma getExecutionOrder_fuel_indep (f1 f2 : nat) (nodes : list Node) (edges : list Edge)
    (r1 r2 : option (list Node)) :
  getExecutionOrder f1 nodes edges = Done r1 ->
  getExecutionOrder f2 nodes edges = Done r2 -> r1 = r2.
Proof.
  intros H1 H2.
  apply (getExecutionOrder_mono _ (Nat.max f1 f2)) in H1; [|lia].
  apply (getExecutionOrder_mono _ (Nat.max f1 f2)) in H2; [|lia].
  rewrite H1 in H2. by injection H2.
Qed.

(** ** Run controller lemmas *)

Ltac case_type n :=
  let ty := fresh "ty" in
  remember (nodeType n) as ty eqn:Hty;
  repeat match goal with
  | |- context [String.eqb ty ?lit] =>
      let E := fresh "E" in
      destruct (String.eqb_spec ty lit) as [E|E]; [rewrite E in *; simpl|]
  end.

Lemma exec_node_ok (respond : Node -> Response) (n : Node) (st : RunSt) :
  succeeds respond n ->
  exec_node respond n st =
  (mkRunSt (log st ++ (if logged n then [ok_entry respond n] else []))
           (calls st ++ (if is_service n then [n] else [])), true).
Proof.
  unfold succeeds, exec_node, logged, is_marker, is_service, ok_entry, ok_text,
    call_service, push.
  intros Hok. case_type n;
    try (destruct Hok as [o Ho]; [done|]; rewrite Ho; done);
    destruct st; simpl; by rewrite ?app_nil_r.
Qed.

Lemma exec_node_fail (respond : Node -> Response) (n : Node) (st : RunSt) :
  is_service n = true -> fails respond n ->
  exists msg, exec_node respond n st =
  (mkRunSt (log st ++ [node_entry n msg]) (calls st ++ [n]), false).
Proof.
  unfold fails, exec_node, is_service, call_service, push.
  intros Hs Hf. case_type n; try discriminate;
    destruct (respond n) as [o|e d|m]; try (by destruct (Hf o)); eexists; done.
Qed.

Lemma exec_seq_ok (respond : Node -> Response) (ns : list Node) (st : RunSt) :
  Forall (succeeds respond) ns ->
  exec_seq respond ns st =
  (mkRunSt (log st ++ map (ok_entry respond) (List.filter logged ns))
           (calls st ++ List.filter is_service ns), Completed).
Proof.
  revert st. induction ns as [|n ns IH]; intros st Hall.
  - destruct st. simpl. by rewrite !app_nil_r.
  - apply Forall_cons in Hall as [Hn Hall]. simpl.
    rewrite (exec_node_ok _ _ _ Hn), IH by done. simpl.
    destruct (logged n), (is_service n); simpl; by rewrite <- ?app_assoc.
Qed.

Lemma exec_seq_fail (respond : Node -> Response) (pre post : list Node) (n : Node)
    (st : RunSt) :
  Forall (succeeds respond) pre -> is_service n = true -> fails respond n ->
  exists msg, exec_seq respond (pre ++ n :: post) st =
  (mkRunSt (log st ++ map (ok_entry respond) (List.filter logged pre) ++ [node_entry n msg])
           (calls st ++ List.filter is_service pre ++ [n]), Failed).
Proof.
  revert st. induction pre as [|x pre IH]; intros st Hall Hs Hf.
  - simpl. destruct (exec_node_fail respond n st Hs Hf) as [msg Hm].
    exists msg. by rewrite Hm.
  - apply Forall_cons in Hall as [Hx Hall]. simpl.
    rewrite (exec_node_ok _ _ _ Hx).
    edestruct IH as [msg Hm]; [exact Hall|exact Hs|exact Hf|].
    exists msg. rewrite Hm. simpl.
    destruct (logged x), (is_service x); simpl; by rewrite <- ?app_assoc.
Qed.

Lemma find_type_none (ty : string) (nodes : list Node) :
  Forall (fun n => nodeType n <> ty) nodes -> find_type ty nodes = None.
Proof.
  unfold find_type. induction 1 as [|n nodes Hn _ IH]; [done|]. simpl.
  apply String.eqb_neq in Hn. by rewrite Hn.
Qed.

Lemma resolve_missing_null (fuel : nat) (nodes : list Node) (edges : list Edge) :
  Forall (fun n => nodeType n <> "Start") nodes \/
  Forall (fun n => nodeType n <> "End") nodes ->
  getExecutionOrder fuel nodes edges = Done None.
Proof.
  unfold getExecutionOrder. intros [H|H].
  - by rewrite find_type_none.
  - destruct (find_type "Start" nodes); [|done]. by rewrite find_type_none.
Qed.

Lemma runFlow_null (fuel : nat) (respond : Node -> Response) (nodes : list Node)
    (edges : list Edge) :
  getExecutionOrder fuel nodes edges = Done None ->
  runFlow fuel respond nodes edges = Done (mkRunSt [system_entry validation_text] [], Rejected).
Proof. unfold runFlow. intros ->. done. Qed.

(** ** C1: graphs without a Start or an End node *)

(** C1 (as stated, refuted): a graph with two Start nodes is not rejected;
    the resolver walks from the first Start node of the array and the run
    completes. *)
Lemma C1_two_starts_accepted :
  length (List.filter (fun n => String.eqb (nodeType n) "Start")
            [g_start; g_start2; g_end]) = 2 /\
  getExecutionOrder 10 [g_start; g_start2; g_end] [mkEdge "node_0" "node_2"]
    = Done (Some [g_start; g_end]) /\
  exists st, runFlow 10 all_ok [g_start; g_start2; g_end] [mkEdge "node_0" "node_2"]
             = Done (st, Completed).
Proof. split; [reflexivity|]. split; [vm_compute; reflexivity|]. eexists. vm_compute. reflexivity. Qed.

(** C1 (amended): for every graph with no Start node or no End node,
    [getExecutionOrder] returns [null] and the log of [runFlow] is exactly
    one diagnostic entry, with no remote call and no Running phase. *)
Theorem resolve_rejects_missing_start_or_end (nodes : list Node) (edges : list Edge) :
  Forall (fun n => nodeType n <> "Start") nodes \/
  Forall (fun n => nodeType n <> "End") nodes ->
  forall fuel respond,
  getExecutionOrder fuel nodes edges = Done None /\
  runFlow fuel respond nodes edges =
    Done (mkRunSt [system_entry validation_text] [], Rejected).
Proof.
  intros H fuel respond. pose proof (resolve_missing_null fuel nodes edges H) as Hn.
  split; [done|]. by apply runFlow_null.
Qed.

Lemma resolve_rejects_missing_start_or_end_witness :
  getExecutionOrder 10 [g_start; g_llm] [mkEdge "node_0" "node_1"] = Done None /\
  runFlow 10 all_ok [g_start; g_llm] [mkEdge "node_0" "node_1"] =
    Done (mkRunSt [system_entry validation_text] [], Rejected).
Proof.
  apply (resolve_rejects_missing_start_or_end [g_start; g_llm] [mkEdge "node_0" "node_1"]).
  right. repeat constructor; simpl; discriminate.
Defined.

(** ** C3: the Start-to-End path *)

(** C3: when following the unique outgoing edge from the Start node reaches
    an End node in [k] hops along the path [s :: p], [getExecutionOrder]
    terminates with exactly these [k+1] nodes in traversal order, and every
    terminating evaluation returns that sequence; no other node of the graph
    appears in it. *)
Theorem resolve_returns_start_end_path (nodes : list Node) (edges : list Edge)
    (s : Node) (p : list Node) (k : nat) :
  find_type "Start" nodes = Some s ->
  edge_chain nodes edges (s :: p) ->
  length p = k ->
  length (s :: p) = S k /\
  (exists fuel, getExecutionOrder fuel nodes edges = Done (Some (s :: p))) /\
  (forall fuel r, getExecutionOrder fuel nodes edges = Done r -> r = Some (s :: p)).
Proof.
  intros Hs Hc Hk.
  assert (Hrun : getExecutionOrder (S (length (s :: p)) + 0) nodes edges = Done (Some (s :: p))).
  { unfold getExecutionOrder. rewrite Hs.
    destruct (edge_chain_last _ _ _ Hc) as (x & Hl & Hin & Hty).
    destruct (find_type_exists "End" nodes x Hin Hty) as [e He]. rewrite He.
    rewrite (walk_chain_run _ _ _ (edge_chain_walk_chain _ _ _ Hc) s p eq_refl 0 []).
    simpl app. rewrite Hl, Hty. done. }
  split; [simpl; by rewrite Hk|]. split; [eauto|].
  intros fuel r Hr. exact (getExecutionOrder_fuel_indep _ _ _ _ _ _ Hr Hrun).
Qed.

Lemma resolve_returns_start_end_path_witness :
  length [g_start; g_llm; g_end] = 3 /\
  (exists fuel, getExecutionOrder fuel [g_input; g_start; g_llm; g_end]
     [mkEdge "node_0" "node_1"; mkEdge "node_1" "node_2"]
     = Done (Some [g_start; g_llm; g_end])) /\
  (forall fuel r, getExecutionOrder fuel [g_input; g_start; g_llm; g_end]
     [mkEdge "node_0" "node_1"; mkEdge "node_1" "node_2"] = Done r ->
     r = Some [g_start; g_llm; g_end]).
Proof.
  apply (resolve_returns_start_end_path _ _ g_start [g_llm; g_end] 2).
  - reflexivity.
  - apply ec_step; [discriminate|reflexivity|discriminate|simpl; tauto| |].
    { intros e He Hse. simpl in He. destruct He as [<-|[<-|[]]]; simpl in *; congruence. }
    apply ec_step; [discriminate|reflexivity|discriminate|simpl; tauto| |].
    { intros e He Hse. simpl in He. destruct He as [<-|[<-|[]]]; simpl in *; congruence. }
    apply ec_end; [discriminate|reflexivity|reflexivity].
  - reflexivity.
Defined.

(** ** C6: termination of the walk *)

(** C6: when the chain followed from the Start node reaches an End node or
    stops, without visiting a node twice, [getExecutionOrder] terminates
    within [|nodes| + 1] evaluations of the loop condition, the walk visits
    exactly the chain, and the chain has at most [|nodes|] nodes. *)
Theorem resolve_terminates_on_simple_chain (nodes : list Node) (edges : list Edge)
    (s : Node) (p : list Node) :
  find_type "Start" nodes = Some s ->
  walk_chain nodes (adjacencyMap edges) (s :: p) ->
  NoDup (s :: p) ->
  (exists r, getExecutionOrder (S (length nodes)) nodes edges = Done r) /\
  walk (S (length nodes)) nodes (adjacencyMap edges) (Some (id s)) [] = Done (s :: p) /\
  length (s :: p) <= length nodes.
Proof.
  intros Hs Hc Hnd.
  assert (Hle : length (s :: p) <= length nodes).
  { apply NoDup_incl_length; [by apply NoDup_ListNoDup|]. intros x Hx. by apply (walk_chain_in _ _ _ Hc). }
  assert (Hw : walk (S (length nodes)) nodes (adjacencyMap edges) (Some (id s)) []
               = Done (s :: p)).
  { replace (S (length nodes)) with (S (length (s :: p)) + (length nodes - length (s :: p)))
      by lia.
    by rewrite (walk_chain_run _ _ _ Hc s p eq_refl). }
  split; [|done].
  unfold getExecutionOrder. rewrite Hs.
  destruct (find_type "End" nodes); [|eauto]. rewrite Hw.
  destruct (last (s :: p)) as [x|]; [|eauto].
  destruct (String.eqb (nodeType x) "End"); eauto.
Qed.

Lemma resolve_terminates_on_simple_chain_witness :
  (exists r, getExecutionOrder 4 [g_start; g_llm; g_end] [mkEdge "node_0" "node_1"]
             = Done r) /\
  walk 4 [g_start; g_llm; g_end] (adjacencyMap [mkEdge "node_0" "node_1"])
    (Some "node_0") [] = Done [g_start; g_llm] /\
  length [g_start; g_llm] <= 3.
Proof.
  apply (resolve_terminates_on_simple_chain [g_start; g_llm; g_end]
           [mkEdge "node_0" "node_1"] g_start [g_llm]).
  - reflexivity.
  - apply wc_step; [discriminate|reflexivity|discriminate|reflexivity|].
    apply wc_stop; [discriminate|reflexivity|discriminate|].
    vm_compute. exact I.
  - apply NoDup_ListNoDup. constructor; [simpl; intuition discriminate|].
    constructor; [simpl; tauto|constructor].
Defined.

(** ** C8: determinism *)

(** C8: two terminating evaluations of [getExecutionOrder] on the same nodes
    and edges return the same result. *)
Theorem resolve_deterministic (f1 f2 : nat) (nodes : list Node) (edges : list Edge)
    (r1 r2 : option (list Node)) :
  getExecutionOrder f1 nodes edges = Done r1 ->
  getExecutionOrder f2 nodes edges = Done r2 ->
  r1 = r2.
Proof. apply getExecutionOrder_fuel_indep. Qed.

Lemma resolve_deterministic_witness :
  getExecutionOrder 3 [g_start; g_llm; g_end]
    [mkEdge "node_0" "node_1"; mkEdge "node_1" "node_2"] = Done (Some [g_start; g_llm; g_end]) /\
  getExecutionOrder 50 [g_start; g_llm; g_end]
    [mkEdge "node_0" "node_1"; mkEdge "node_1" "node_2"] = Done (Some [g_start; g_llm; g_end]) /\
  Some [g_start; g_llm; g_end] = Some [g_start; g_llm; g_end].
Proof.
  split; [vm_compute; reflexivity|]. split; [vm_compute; reflexivity|].
  apply (resolve_deterministic 3 50 [g_start; g_llm; g_end]
           [mkEdge "node_0" "node_1"; mkEdge "node_1" "node_2"]);
    vm_compute; reflexivity.
Defined.

(** ** C10: duplicate outgoing edges *)

(** C10: on a found, non-End node with id [i], the walk continues with the
    target of the last edge of the array whose source is [i] (and stops when
    there is none). *)
Theorem resolve_follows_last_edge (fuel : nat) (nodes : list Node) (edges : list Edge)
    (i : string) (n : Node) (acc : list Node) :
  i <> "" -> find_id i nodes = Some n -> nodeType n <> "End" ->
  walk (S fuel) nodes (adjacencyMap edges) (Some i) acc =
  walk fuel nodes (adjacencyMap edges)
    (option_map target (last (List.filter (fun e => String.eqb (source e) i) edges)))
    (acc ++ [n]).
Proof.
  intros Hi Hf Hty. rewrite (walk_step _ _ _ _ _ n Hi Hf Hty).
  by rewrite adjacencyMap_lookup.
Qed.

Lemma resolve_follows_last_edge_witness :
  walk 5 [g_start; g_llm; g_end] (adjacencyMap [mkEdge "node_0" "node_1"; mkEdge "node_0" "node_2"])
    (Some "node_0") [] =
  walk 4 [g_start; g_llm; g_end] (adjacencyMap [mkEdge "node_0" "node_1"; mkEdge "node_0" "node_2"])
    (Some "node_2") [g_start].
Proof.
  rewrite (resolve_follows_last_edge 4 [g_start; g_llm; g_end]
             [mkEdge "node_0" "node_1"; mkEdge "node_0" "node_2"] "node_0" g_start []);
    [vm_compute; reflexivity|discriminate|reflexivity|discriminate].
Defined.

(** ** C2: one log entry per node of a run *)

(** C2 (as stated, refuted): on Start -> Input -> End the run completes with
    three log entries for a three-node sequence; the Input node gets none. *)
Lemma C2_input_node_unlogged :
  getExecutionOrder 10 [g_start; g_input; g_end]
    [mkEdge "node_0" "node_3"; mkEdge "node_3" "node_2"]
    = Done (Some [g_start; g_input; g_end]) /\
  exists st,
    runFlow 10 all_ok [g_start; g_input; g_end]
      [mkEdge "node_0" "node_3"; mkEdge "node_3" "node_2"] = Done (st, Completed) /\
    length (log st) = 3 /\
    Forall (fun e => nodeId e <> id g_input) (log st).
Proof.
  split; [vm_compute; reflexivity|]. eexists. split; [vm_compute; reflexivity|].
  split; [reflexivity|]. repeat constructor; simpl; discriminate.
Qed.

(** C2 (amended): when the run enters Running with sequence [order] and no
    executor reports a failure, the log is the start marker followed by one
    entry per node of [order] of type Start, End, LLM, Web Scraping,
    Embedding Generator or Similarity Search, in order, with that node's
    executor output; other node types get no entry and no remote call. *)
Theorem runFlow_completed_log (fuel : nat) (respond : Node -> Response)
    (nodes : list Node) (edges : list Edge) (order : list Node) :
  getExecutionOrder fuel nodes edges = Done (Some order) ->
  Forall (succeeds respond) order ->
  runFlow fuel respond nodes edges =
  Done (mkRunSt (system_entry (started_text (length order))
                   :: map (ok_entry respond) (List.filter logged order))
                (List.filter is_service order), Completed).
Proof.
  intros Ho Hall. unfold runFlow. rewrite Ho. by rewrite exec_seq_ok.
Qed.

Lemma runFlow_completed_log_witness :
  runFlow 10 all_ok [g_start; g_input; g_llm; g_end]
    [mkEdge "node_0" "node_3"; mkEdge "node_3" "node_1"; mkEdge "node_1" "node_2"] =
  Done (mkRunSt (system_entry (started_text 4)
                   :: map (ok_entry all_ok) [g_start; g_llm; g_end]) [g_llm], Completed).
Proof.
  apply (runFlow_completed_log 10 all_ok _ _ [g_start; g_input; g_llm; g_end]).
  - vm_compute. reflexivity.
  - repeat constructor; intros _; eexists; reflexivity.
Defined.

(** ** C4: stop on first error *)

(** C4 (as stated, refuted): on Start -> Input -> LLM -> End with a failing
    generation call the failing node is at position 2, yet the log has three
    entries, not four. *)
Lemma C4_failure_log_shorter :
  let ns := [g_start; g_input; g_llm; g_end] in
  let es := [mkEdge "node_0" "node_3"; mkEdge "node_3" "node_1"; mkEdge "node_1" "node_2"] in
  getExecutionOrder 10 ns es = Done (Some ns) /\
  nth_error ns 2 = Some g_llm /\
  exists st, runFlow 10 fail_llm ns es = Done (st, Failed) /\ length (log st) = 3.
Proof.
  simpl. split; [vm_compute; reflexivity|]. split; [reflexivity|].
  eexists. split; [vm_compute; reflexivity|reflexivity].
Qed.

(** C4 (amended): when the node at position [i = length pre] of the
    sequence is the first whose executor fails, the run ends Failed with
    the start marker, one entry per earlier node of type Start, End, LLM,
    Web Scraping, Embedding Generator or Similarity Search, and the error
    entry of the failing node ([2 + |such earlier nodes|] entries, i.e.
    [i+2] when every earlier node is of these types); no node after
    position [i] has an entry or a remote call. *)
Theorem runFlow_stops_on_first_error (fuel : nat) (respond : Node -> Response)
    (nodes : list Node) (edges : list Edge) (pre post : list Node) (n : Node) :
  getExecutionOrder fuel nodes edges = Done (Some (pre ++ n :: post)) ->
  Forall (succeeds respond) pre -> is_service n = true -> fails respond n ->
  exists st msg,
    runFlow fuel respond nodes edges = Done (st, Failed) /\
    log st = system_entry (started_text (length (pre ++ n :: post)))
               :: map (ok_entry respond) (List.filter logged pre) ++ [node_entry n msg] /\
    length (log st) = 2 + length (List.filter logged pre) /\
    (Forall (fun x => logged x = true) pre -> length (log st) = length pre + 2) /\
    calls st = List.filter is_service pre ++ [n].
Proof.
  intros Ho Hall Hs Hf. unfold runFlow. rewrite Ho. cbv zeta. cbn [calls].
  destruct (exec_seq_fail respond pre post n
              (mkRunSt [system_entry (started_text (length (pre ++ n :: post)))] [])
              Hall Hs Hf) as [msg Hm].
  rewrite Hm. eexists _, msg. cbn [log calls app]. split; [done|]. split; [done|].
  unfold log, calls. cbn [length]. rewrite length_app, length_map. simpl.
  split; [lia|]. split; [|done].
  intros Hl. rewrite List.forallb_filter_id; [lia|].
  apply forallb_forall. intros x Hx. rewrite List.Forall_forall in Hl. by apply Hl.
Qed.

Lemma runFlow_stops_on_first_error_witness :
  exists st msg,
    runFlow 10 fail_llm [g_start; g_llm; g_end]
      [mkEdge "node_0" "node_1"; mkEdge "node_1" "node_2"] = Done (st, Failed) /\
    log st = system_entry (started_text 3)
               :: map (ok_entry fail_llm) [g_start] ++ [node_entry g_llm msg] /\
    length (log st) = 2 + 1 /\
    (Forall (fun x => logged x = true) [g_start] -> length (log st) = 1 + 2) /\
    calls st = [] ++ [g_llm].
Proof.
  apply (runFlow_stops_on_first_error 10 fail_llm _ _ [g_start] [g_end] g_llm).
  - vm_compute. reflexivity.
  - repeat constructor. discriminate.
  - reflexivity.
  - intros o. vm_compute. discriminate.
Defined.

(** ** C5: validation failures *)

Lemma cyc_walk_loops (fuel : nat) (acc : list Node) :
  walk fuel cyc_nodes (adjacencyMap cyc_edges) (Some "node_1") acc = OutOfFuel.
Proof.
  revert acc. induction fuel as [|fuel IH]; intros acc; [reflexivity|].
  rewrite (walk_step fuel _ _ "node_1" acc g_llm); [|discriminate|reflexivity|discriminate].
  change (adjacencyMap cyc_edges !! "node_1") with (Some "node_1"). apply IH.
Qed.

Lemma cyc_no_path_to_end (a c : string) :
  reaches cyc_edges a c -> a = "node_0" \/ a = "node_1" -> c = "node_0" \/ c = "node_1".
Proof.
  induction 1 as [a|a b c Hin _ IH]; [done|]. intros _. apply IH.
  unfold cyc_edges in Hin. simpl in Hin.
  destruct Hin as [He|[He|[]]]; injection He as <- <-; by right.
Qed.

(** C5 (as stated, refuted): in the graph Start -> LLM with the LLM node
    connected to itself (and an unconnected End node) no path leads from
    Start to End, yet [runFlow] never returns and emits no diagnostic
    entry, whatever the fuel. *)
Lemma C5_cycle_never_reports :
  ~ reaches cyc_edges "node_0" "node_2" /\
  forall fuel respond, runFlow fuel respond cyc_nodes cyc_edges = OutOfFuel.
Proof.
  split.
  - intros H. destruct (cyc_no_path_to_end _ _ H) as [E|E]; [by left|discriminate|discriminate].
  - intros fuel respond. unfold runFlow, getExecutionOrder.
    change (find_type "Start" cyc_nodes) with (Some g_start).
    change (find_type "End" cyc_nodes) with (Some g_end).
    destruct fuel as [|fuel]; [reflexivity|].
    rewrite (walk_step fuel _ _ "node_0" [] g_start); [|discriminate|reflexivity|discriminate].
    change (adjacencyMap cyc_edges !! id g_start) with (Some "node_1").
    by rewrite cyc_walk_loops.
Qed.

(** C5 (amended): for a graph with no Start node, with no End node, or
    whose walk from the first Start node stops before any End node, every
    run with enough fuel emits exactly one diagnostic entry attributed to
    the system, issues no remote call and ends Rejected, never entering
    Running. *)
Theorem runFlow_validation_failure (respond : Node -> Response) (nodes : list Node)
    (edges : list Edge) :
  Forall (fun n => nodeType n <> "Start") nodes \/
  Forall (fun n => nodeType n <> "End") nodes \/
  (exists s p, find_type "Start" nodes = Some s /\
     walk_chain nodes (adjacencyMap edges) (s :: p) /\
     forall x, last (s :: p) = Some x -> nodeType x <> "End") ->
  exists fuel0, forall fuel, fuel0 <= fuel ->
  runFlow fuel respond nodes edges =
    Done (mkRunSt [system_entry validation_text] [], Rejected) /\
  getExecutionOrder fuel nodes edges = Done None.
Proof.
  intros H.
  assert (Hnull : exists fuel0, forall fuel, fuel0 <= fuel ->
                  getExecutionOrder fuel nodes edges = Done None).
  { destruct H as [H|[H|(s & p & Hs & Hc & Hl)]].
    - exists 0. intros fuel _. apply resolve_missing_null. by left.
    - exists 0. intros fuel _. apply resolve_missing_null. by right.
    - exists (S (length (s :: p))). intros fuel Hle.
      unfold getExecutionOrder. rewrite Hs.
      destruct (find_type "End" nodes); [|done].
      replace fuel with (S (length (s :: p)) + (fuel - S (length (s :: p)))) by lia.
      rewrite (walk_chain_run _ _ _ Hc s p eq_refl). simpl app.
      destruct (last (s :: p)) as [x|] eqn:E; [|done].
      specialize (Hl x eq_refl). apply String.eqb_neq in Hl. by rewrite Hl. }
  destruct Hnull as [fuel0 Hnull]. exists fuel0. intros fuel Hle.
  split; [|by apply Hnull]. apply runFlow_null. by apply Hnull.
Qed.

Lemma runFlow_validation_failure_witness :
  exists fuel0, forall fuel, fuel0 <= fuel ->
  runFlow fuel all_ok [g_start; g_llm; g_end] [mkEdge "node_0" "node_1"] =
    Done (mkRunSt [system_entry validation_text] [], Rejected) /\
  getExecutionOrder fuel [g_start; g_llm; g_end] [mkEdge "node_0" "node_1"] = Done None.
Proof.
  apply runFlow_validation_failure. right. right.
  exists g_start, [g_llm]. split; [reflexivity|]. split.
  - apply wc_step; [discriminate|reflexivity|discriminate|reflexivity|].
    apply wc_stop; [discriminate|reflexivity|discriminate|].
    vm_compute. exact I.
  - intros x Hx. injection Hx as <-. discriminate.
Defined.

(** ** C7: numeric parameter coercions *)

(** C7: an LLM node whose [temperature], [maxOutputTokens] and [topK] are
    unparsable reaches the generation config as [NaN] for all three, not
    as the defaults 0.7, 1024 and 40; the Similarity Search route does fall
    back to 5 on an unparsable [topK], and a blank LLM temperature does
    become 0.7. *)
Theorem llm_unparsable_params_not_defaulted :
  gemini_config (llm_body llm_bad) = mkGenerationConfig NaN NaN NaN /\
  num_eqb (search_topK search_bad) (Fin 5) = true /\
  num_eqb (cfg_temperature (gemini_config (llm_body llm_blank))) (Fin (7 # 10)) = true /\
  num_eqb (cfg_maxOutputTokens (gemini_config (llm_body llm_blank))) (Fin 1024) = true /\
  num_eqb (cfg_topK (gemini_config (llm_body llm_blank))) (Fin 40) = true.
Proof. repeat split; vm_compute; reflexivity. Qed.

(** ** C9: at most one outgoing edge *)

Lemma NoDup_map_filter (f : Edge -> string) (keep : Edge -> bool) (l : list Edge) :
  List.NoDup (map f l) -> List.NoDup (map f (List.filter keep l)).
Proof.
  induction l as [|x l IH]; simpl; intros H; [constructor|].
  apply List.NoDup_cons_iff in H as [Hx Hl].
  destruct (keep x); simpl; [|by apply IH]. constructor; [|by apply IH].
  intros Hin. apply in_map_iff in Hin as (y & Hy & Hyin).
  apply filter_In in Hyin as [Hyin _]. apply Hx. rewrite <- Hy. by apply in_map.
Qed.

Lemma addEdge_cases (e : Edge) (es : list Edge) :
  addEdge e es = es \/ addEdge e es = es ++ [e].
Proof.
  unfold addEdge. destruct (_ || _); [by left|].
  destruct (existsb _ _); [by left|by right].
Qed.

Lemma onConnect_filtered_source (c e : Edge) (eds : list Edge) :
  In e (List.filter (fun e => negb (String.eqb (source e) (source c))) eds) ->
  source e <> source c.
Proof.
  intros Hin. apply filter_In in Hin as [_ Hne].
  destruct (String.eqb_spec (source e) (source c)); [discriminate|done].
Qed.

(** C9: from an edge set with at most one outgoing edge per node,
    [onConnect c] yields one with at most one outgoing edge per node; the
    only edge left from [c]'s source is [c] itself, every edge from another
    source is kept, and [c] is added when it has a source and a target. *)
Theorem onConnect_at_most_one_outgoing (c : Edge) (eds : list Edge) :
  NoDup (map source eds) ->
  NoDup (map source (onConnect c eds)) /\
  (forall e, In e (onConnect c eds) -> source e = source c -> e = c) /\
  (forall e, In e eds -> source e <> source c -> In e (onConnect c eds)) /\
  (source c <> "" -> target c <> "" -> In c (onConnect c eds)).
Proof.
  intros Hnd. apply NoDup_ListNoDup in Hnd. unfold onConnect.
  set (F := List.filter (fun e => negb (String.eqb (source e) (source c))) eds).
  assert (HF : List.NoDup (map source F)) by (by apply NoDup_map_filter).
  assert (Hincl : forall e, In e F -> In e (addEdge c F)).
  { intros e He. destruct (addEdge_cases c F) as [->| ->]; [done|].
    apply in_or_app. by left. }
  split; [|split; [|split]].
  - apply NoDup_ListNoDup. destruct (addEdge_cases c F) as [->| ->]; [done|].
    rewrite map_app. simpl.
    apply (Permutation_NoDup (Permutation_cons_append _ _)). constructor; [|done].
    intros Hin. apply in_map_iff in Hin as (y & Hy & Hyin).
    by apply (onConnect_filtered_source c y eds).
  - intros e He Hs. destruct (addEdge_cases c F) as [Ha|Ha]; rewrite Ha in He.
    + by destruct (onConnect_filtered_source c e eds He).
    + apply in_app_or in He as [He|[He|[]]]; [|done].
      by destruct (onConnect_filtered_source c e eds He).
  - intros e He Hs. apply Hincl. apply filter_In. split; [done|].
    by destruct (String.eqb_spec (source e) (source c)).
  - intros Hs Ht. unfold addEdge.
    apply String.eqb_neq in Hs, Ht. rewrite Hs, Ht. simpl.
    destruct (existsb _ F) eqn:E.
    + apply existsb_exists in E as (y & Hy & Hm).
      apply andb_true_iff in Hm as [Hm _]. apply String.eqb_eq in Hm.
      by destruct (onConnect_filtered_source c y eds Hy).
    + apply in_or_app. right. by left.
Qed.

Lemma onConnect_at_most_one_outgoing_witness :
  let eds := [mkEdge "node_0" "node_1"; mkEdge "node_1" "node_2"] in
  let c := mkEdge "node_0" "node_2" in
  NoDup (map source (onConnect c eds)) /\
  (forall e, In e (onConnect c eds) -> source e = source c -> e = c) /\
  (forall e, In e eds -> source e <> source c -> In e (onConnect c eds)) /\
  (source c <> "" -> target c <> "" -> In c (onConnect c eds)).
Proof.
  intros eds c. apply (onConnect_at_most_one_outgoing c eds).
  apply NoDup_ListNoDup. simpl. constructor; [|constructor; [simpl; tauto|constructor]].
  simpl. intros [H|[]]. discriminate.
Defined.

(** ** Editor operations *)

Lemma node_id_inj (a b : nat) : "node_" +:+ pretty a = "node_" +:+ pretty b -> a = b.
Proof. intros H. simpl in H. injection H as H. exact (inj (pretty (A:=nat)) _ _ H). Qed.

(** X1: [addNode] keeps the ids on the canvas unique: when every id was
    issued by [getNodeId] below the counter (as on the empty canvas), the
    same holds after [addNode], with the new counter. *)
Theorem addNode_keeps_ids_unique (nodeType : string) (nodes : list Node) (counter : nat) :
  ids_issued counter nodes ->
  ids_issued (snd (addNode nodeType nodes counter)) (fst (addNode nodeType nodes counter)).
Proof.
  intros [Hnd Hk]. unfold addNode.
  destruct (String.eqb nodeType ""); [by split|]. simpl. split.
  - rewrite map_app. apply NoDup_app. split; [done|]. split; [|apply NoDup_singleton].
    intros x Hx Hx'. apply list_elem_of_singleton in Hx'. subst x.
    apply list_elem_of_In, in_map_iff in Hx as (n & Hn & Hin).
    destruct (Hk n Hin) as (k & Hlt & Hid). rewrite Hn in Hid.
    apply node_id_inj in Hid. lia.
  - intros n Hin. apply in_app_or in Hin as [Hin|[<-|[]]].
    + destruct (Hk n Hin) as (k & Hlt & Hid). exists k. split; [lia|done].
    + exists counter. split; [lia|done].
Qed.

Lemma addNode_keeps_ids_unique_witness :
  ids_issued 1 [mkNode "node_0" "Node 1" "Start" ∅] /\
  ids_issued 2 [mkNode "node_0" "Node 1" "Start" ∅; mkNode "node_1" "Node 2" "LLM" ∅].
Proof.
  assert (H0 : ids_issued 1 [mkNode "node_0" "Node 1" "Start" ∅]).
  { split; [constructor; [set_solver|constructor]|].
    intros n [<-|[]]. exists 0. split; [lia|reflexivity]. }
  split; [exact H0|].
  exact (addNode_keeps_ids_unique "LLM" [mkNode "node_0" "Node 1" "Start" ∅] 1 H0).
Defined.

(** X2: pressing Delete or Backspace outside a text field leaves exactly
    the unselected nodes, and only unselected edges whose two ends are
    remaining nodes: no edge is left dangling. *)
Theorem handleKeyDown_no_dangling_edges (key : string) (tgt : KeyTarget)
    (nodes : list CanvasNode) (edges : list CanvasEdge) :
  (key = "Delete" \/ key = "Backspace") ->
  tagName tgt <> "INPUT" -> tagName tgt <> "TEXTAREA" -> isContentEditable tgt = false ->
  (forall n, In n (fst (handleKeyDown key tgt nodes edges)) <-> In n nodes /\ cn_selected n = false) /\
  (forall e, In e (snd (handleKeyDown key tgt nodes edges)) ->
     In e edges /\ ce_selected e = false /\
     exists ns nt, In ns (fst (handleKeyDown key tgt nodes edges)) /\
                   In nt (fst (handleKeyDown key tgt nodes edges)) /\
                   id (cn_node ns) = source (ce_edge e) /\ id (cn_node nt) = target (ce_edge e)).
Proof.
  intros Hkey Hi Ht Hc. unfold handleKeyDown.
  assert (Hk : (String.eqb key "Delete" || String.eqb key "Backspace") = true).
  { destruct Hkey as [->| ->]; reflexivity. }
  rewrite Hk. apply String.eqb_neq in Hi, Ht. rewrite Hi, Ht, Hc. simpl.
  assert (Hlive : forall i, existsb (fun n => String.eqb (id (cn_node n)) i && negb (cn_selected n)) nodes = true ->
            exists n, In n (List.filter (fun n => negb (cn_selected n)) nodes) /\ id (cn_node n) = i).
  { intros i Hex. apply existsb_exists in Hex as (n & Hin & Hn).
    apply andb_true_iff in Hn as [Hid Hs]. exists n. split.
    - apply filter_In. by split.
    - by apply String.eqb_eq. }
  split.
  - intros n. rewrite filter_In. destruct (cn_selected n); simpl; intuition.
  - intros e He. apply filter_In in He as [He Hk'].
    apply andb_true_iff in Hk' as [Hst Hsel]. apply andb_true_iff in Hst as [Hs Htg].
    split; [done|]. split; [by destruct (ce_selected e)|].
    destruct (Hlive _ Hs) as (ns & Hns & Hids). destruct (Hlive _ Htg) as (nt & Hnt & Hidt).
    by exists ns, nt.
Qed.

Lemma handleKeyDown_no_dangling_edges_witness :
  let nodes := [mkCanvasNode g_start false; mkCanvasNode g_llm true; mkCanvasNode g_end false] in
  let edges := [mkCanvasEdge (mkEdge "node_0" "node_1") false;
                mkCanvasEdge (mkEdge "node_0" "node_2") false] in
  (forall n, In n (fst (handleKeyDown "Delete" (mkKeyTarget "DIV" false) nodes edges)) <->
             In n nodes /\ cn_selected n = false) /\
  (forall e, In e (snd (handleKeyDown "Delete" (mkKeyTarget "DIV" false) nodes edges)) ->
     In e edges /\ ce_selected e = false /\
     exists ns nt, In ns (fst (handleKeyDown "Delete" (mkKeyTarget "DIV" false) nodes edges)) /\
                   In nt (fst (handleKeyDown "Delete" (mkKeyTarget "DIV" false) nodes edges)) /\
                   id (cn_node ns) = source (ce_edge e) /\ id (cn_node nt) = target (ce_edge e)).
Proof.
  intros nodes edges.
  apply handleKeyDown_no_dangling_edges; [by left|discriminate|discriminate|reflexivity].
Defined.

(** With unique ids, the node [find_id] returns is the only one with its id. *)
Lemma find_id_unique (nodes : list Node) (i : string) (n x : Node) :
  NoDup (map id nodes) -> find_id i nodes = Some n -> In x nodes -> id x = i -> x = n.
Proof.
  intros Hnd Hf Hx Hid. apply find_id_some in Hf as [Hn Hni].
  apply NoDup_ListNoDup in Hnd. induction nodes as [|y nodes IH]; [done|].
  simpl in Hnd. apply List.NoDup_cons_iff in Hnd as [Hy Hnd].
  destruct Hx as [<-|Hx], Hn as [<-|Hn]; [done| | |by apply IH].
  - exfalso. apply Hy. rewrite Hid, <- Hni. by apply in_map.
  - exfalso. apply Hy. rewrite Hni, <- Hid. by apply in_map.
Qed.

Lemma with_parameters_same (n : Node) : with_parameters n (parameters n) = n.
Proof. by destruct n. Qed.

Lemma with_label_same (n : Node) : with_label n (label n) = n.
Proof. by destruct n. Qed.

(** X3: with unique ids, opening the parameter editor of a node and saving
    leaves the nodes unchanged; setting field [k] to [v] before saving
    changes only that node, whose parameters become its old ones with [k]
    set to [v].  The editor is closed afterwards. *)
Theorem parameter_editor_roundtrip (nodes : list Node) (m : Modal) (i k v : string) (n : Node) :
  NoDup (map id nodes) -> find_id i nodes = Some n ->
  updateNodeParameters nodes (handleExpandNode i nodes m) = (nodes, modal_closed) /\
  (i <> "" ->
   updateNodeParameters nodes (setField k v (handleExpandNode i nodes m)) =
   (map (fun x => if String.eqb (id x) i then with_parameters x (<[k := v]> (parameters x)) else x)
        nodes, modal_closed)).
Proof.
  intros Hnd Hf. unfold updateNodeParameters, handleExpandNode, setField. rewrite Hf. simpl.
  split; [|intros Hi; apply String.eqb_neq in Hi; rewrite Hi; f_equal; apply map_ext_in;
           intros x Hx; destruct (String.eqb_spec (id x) i) as [Hxi|]; [|done];
           by rewrite (find_id_unique nodes i n x Hnd Hf Hx Hxi)].
  destruct (String.eqb i ""); [done|]. f_equal.
  rewrite <- (map_id nodes) at 2. apply map_ext_in. intros x Hx.
  destruct (String.eqb_spec (id x) i) as [Hxi|]; [|done].
  rewrite (find_id_unique nodes i n x Hnd Hf Hx Hxi). apply with_parameters_same.
Qed.

Lemma parameter_editor_roundtrip_witness :
  updateNodeParameters [g_start; llm_blank] (handleExpandNode "node_1" [g_start; llm_blank] modal_closed)
    = ([g_start; llm_blank], modal_closed) /\
  ("node_1" <> "" ->
   updateNodeParameters [g_start; llm_blank]
     (setField "topK" "7" (handleExpandNode "node_1" [g_start; llm_blank] modal_closed)) =
   (map (fun x => if String.eqb (id x) "node_1" then with_parameters x (<["topK" := "7"]> (parameters x)) else x)
        [g_start; llm_blank], modal_closed)).
Proof.
  apply (parameter_editor_roundtrip [g_start; llm_blank] modal_closed "node_1" "topK" "7" llm_blank).
  - apply NoDup_ListNoDup. constructor; [simpl; intros [H|[]]; discriminate|].
    constructor; [intros []|constructor].
  - reflexivity.
Defined.

(** X4: renaming never gives a node a blank label and never changes an id,
    a type or the parameters: each node of the result is the node at the
    same position, or that node with a label whose trim is not empty.  The
    dialog is closed afterwards. *)
Theorem updateNodeName_never_blank (nodes : list Node) (r : Rename) :
  snd (updateNodeName nodes r) = mkRename None "" /\
  Forall2 (fun x y => y = x \/ (y = with_label x (label y) /\ trim (label y) <> ""))
    nodes (fst (updateNodeName nodes r)).
Proof.
  split; [done|]. unfold updateNodeName. simpl.
  assert (Hrefl : Forall2 (fun x y => y = x \/ (y = with_label x (label y) /\ trim (label y) <> ""))
                    nodes nodes).
  { induction nodes; constructor; auto. }
  destruct (editingNode r) as [e|]; [|exact Hrefl].
  destruct (negb (String.eqb e "") && negb (String.eqb (trim (rn_nodeName r)) "")) eqn:E;
    [|exact Hrefl].
  apply andb_true_iff in E as [_ E]. apply negb_true_iff, String.eqb_neq in E.
  clear Hrefl. induction nodes as [|x nodes IH]; simpl; [constructor|].
  constructor; [|exact IH].
  destruct (String.eqb (id x) e); [right|by left]. split; [done|exact E].
Qed.

(** X5: with unique ids, double-clicking a node and confirming the name
    without typing leaves the nodes unchanged. *)
Theorem rename_roundtrip (nodes : list Node) (n : Node) (r : Rename) :
  NoDup (map id nodes) -> In n nodes ->
  updateNodeName nodes (onNodeDoubleClick n r) = (nodes, mkRename None "").
Proof.
  intros Hnd Hin. unfold updateNodeName, onNodeDoubleClick. simpl. f_equal.
  destruct (negb _ && negb _); [|done].
  rewrite <- (map_id nodes) at 2. apply map_ext_in. intros x Hx.
  destruct (String.eqb_spec (id x) (id n)) as [Hxi|]; [|done].
  apply NoDup_ListNoDup in Hnd.
  assert (x = n) as ->; [|apply with_label_same].
  clear -Hnd Hin Hx Hxi. induction nodes as [|y nodes IH]; [done|].
  simpl in Hnd. apply List.NoDup_cons_iff in Hnd as [Hy Hnd].
  destruct Hx as [<-|Hx], Hin as [<-|Hin]; [done| | |by apply IH].
  - exfalso. apply Hy. rewrite Hxi. by apply in_map.
  - exfalso. apply Hy. rewrite <- Hxi. by apply in_map.
Qed.

Lemma rename_roundtrip_witness :
  updateNodeName [g_start; g_llm; g_end] (onNodeDoubleClick g_llm (mkRename None ""))
    = ([g_start; g_llm; g_end], mkRename None "").
Proof.
  apply rename_roundtrip; [|by right; left].
  apply NoDup_ListNoDup. constructor; [simpl; intros [H|[H|[]]]; discriminate|].
  constructor; [simpl; intros [H|[]]; discriminate|]. constructor; [intros []|constructor].
Defined.

(** ** Edits and the execution order *)

Section IdTypePreserving.

Variable f : Node -> Node.
Hypothesis f_id : forall n, id (f n) = id n.
Hypothesis f_type : forall n, nodeType (f n) = nodeType n.

Lemma find_type_map (ty : string) (nodes : list Node) :
  find_type ty (map f nodes) = option_map f (find_type ty nodes).
Proof.
  unfold find_type. induction nodes as [|n nodes IH]; [done|]. simpl.
  rewrite f_type. by destruct (String.eqb (nodeType n) ty).
Qed.

Lemma find_id_map (i : string) (nodes : list Node) :
  find_id i (map f nodes) = option_map f (find_id i nodes).
Proof.
  unfold find_id. induction nodes as [|n nodes IH]; [done|]. simpl.
  rewrite f_id. by destruct (String.eqb (id n) i).
Qed.

Lemma walk_map (fuel : nat) (nodes : list Node) (adj : gmap string string)
    (cur : option string) (acc : list Node) :
  walk fuel (map f nodes) adj cur (map f acc) =
  match walk fuel nodes adj cur acc with
  | Done o => Done (map f o)
  | OutOfFuel => OutOfFuel
  end.
Proof.
  revert cur acc. induction fuel as [|fuel IH]; intros cur acc; [done|]. simpl.
  destruct cur as [i|]; [|done]. destruct (String.eqb i ""); [done|].
  rewrite find_id_map. destruct (find_id i nodes) as [n|]; simpl; [|done].
  rewrite f_type. destruct (String.eqb (nodeType n) "End").
  - by rewrite map_app.
  - rewrite <- IH. by rewrite map_app.
Qed.

Lemma getExecutionOrder_map (fuel : nat) (nodes : list Node) (edges : list Edge) :
  order_ids (getExecutionOrder fuel (map f nodes) edges) =
  order_ids (getExecutionOrder fuel nodes edges).
Proof.
  unfold getExecutionOrder. rewrite !find_type_map.
  destruct (find_type "Start" nodes) as [s|]; [|done].
  destruct (find_type "End" nodes) as [e|]; [|done]. simpl.
  rewrite f_id. pose proof (walk_map fuel nodes (adjacencyMap edges) (Some (id s)) []) as W.
  simpl in W. rewrite W.
  destruct (walk fuel nodes _ _ _) as [order|]; [|done].
  destruct order as [|x order] using rev_ind; [done|].
  rewrite map_app. simpl. rewrite !last_snoc. simpl. rewrite f_type.
  destruct (String.eqb (nodeType x) "End"); [|done]. simpl. do 2 f_equal.
  rewrite !map_app. simpl. rewrite f_id, map_map. f_equal. apply map_ext, f_id.
Qed.

End IdTypePreserving.

(** [updateNodeName] and [updateNodeParameters] act on the nodes as maps. *)
Lemma updateNodeName_map (nodes : list Node) (r : Rename) :
  exists g, (forall n, id (g n) = id n /\ nodeType (g n) = nodeType n) /\
            fst (updateNodeName nodes r) = map g nodes.
Proof.
  unfold updateNodeName. simpl.
  destruct (editingNode r) as [e|];
    [|exists (fun n => n); split; [by intros n|by rewrite map_id]].
  destruct (_ && _);
    [|exists (fun n => n); split; [by intros n|by rewrite map_id]].
  eexists. split; [|reflexivity]. intros n. cbv beta. destruct (String.eqb (id n) e); split; reflexivity.
Qed.

Lemma updateNodeParameters_map (nodes : list Node) (m : Modal) :
  exists g, (forall n, id (g n) = id n /\ nodeType (g n) = nodeType n) /\
            fst (updateNodeParameters nodes m) = map g nodes.
Proof.
  unfold updateNodeParameters. simpl.
  destruct (expandedNode m) as [e|];
    [|exists (fun n => n); split; [by intros n|by rewrite map_id]].
  destruct (String.eqb e "");
    [exists (fun n => n); split; [by intros n|by rewrite map_id]|].
  eexists. split; [|reflexivity]. intros n. cbv beta. destruct (String.eqb (id n) e); split; reflexivity.
Qed.

(** X6: renaming a node or saving its parameters never changes which
    nodes [getExecutionOrder] returns, nor whether it returns [null]: the
    ids of the order are the same before and after the edit. *)
Theorem edits_keep_execution_order (fuel : nat) (nodes : list Node) (edges : list Edge)
    (r : Rename) (m : Modal) :
  order_ids (getExecutionOrder fuel (fst (updateNodeName nodes r)) edges) =
  order_ids (getExecutionOrder fuel nodes edges) /\
  order_ids (getExecutionOrder fuel (fst (updateNodeParameters nodes m)) edges) =
  order_ids (getExecutionOrder fuel nodes edges).
Proof.
  split.
  - destruct (updateNodeName_map nodes r) as (g & Hg & ->).
    apply getExecutionOrder_map; intros n; apply Hg.
  - destruct (updateNodeParameters_map nodes m) as (g & Hg & ->).
    apply getExecutionOrder_map; intros n; apply Hg.
Qed.

(** ** Generation route *)

(** X7: the generation route calls the model only for a parsed body with a
    non-empty [userMessage] and a configured key; the call carries that
    message, and its system instruction is [systemInstruction] when it is
    non-empty, otherwise [systemPrompt] when it is non-empty, otherwise
    none. *)
Theorem gemini_route_call (apiKey : string) (req : Settled GeminiRequest)
    (up : GeminiUpstream) (c : GeminiCall) :
  snd (gemini_route apiKey req up) = Some c ->
  exists rq, req = Fulfilled rq /\ str_of (rq_userMessage rq) <> "" /\ apiKey <> "" /\
    gc_text c = str_of (rq_userMessage rq) /\
    gc_systemInstruction c =
      (if truthy (rq_systemInstruction rq) then rq_systemInstruction rq
       else if truthy (rq_systemPrompt rq) then rq_systemPrompt rq else None).
Proof.
  destruct req as [rq|m]; simpl; [|discriminate].
  unfold truthy at 1.
  destruct (String.eqb_spec (str_of (rq_userMessage rq)) "") as [Hu|Hu]; simpl; [discriminate|].
  destruct (String.eqb_spec apiKey "") as [Hk|Hk]; [discriminate|].
  intros H. injection H as <-. exists rq. do 4 (split; [done|]). simpl.
  destruct (truthy (rq_systemInstruction rq)) eqn:Hs; [by rewrite Hs|].
  by destruct (truthy (rq_systemPrompt rq)).
Qed.

Lemma gemini_route_call_witness :
  exists c, snd (gemini_route "key"
                   (Fulfilled (mkGeminiRequest (Some "") (Some "Be brief") (Some "Hi") None None None))
                   (GUOk None)) = Some c /\
  exists rq, Fulfilled (mkGeminiRequest (Some "") (Some "Be brief") (Some "Hi") None None None) = Fulfilled rq /\
    str_of (rq_userMessage rq) <> "" /\ "key" <> "" /\
    gc_text c = str_of (rq_userMessage rq) /\
    gc_systemInstruction c =
      (if truthy (rq_systemInstruction rq) then rq_systemInstruction rq
       else if truthy (rq_systemPrompt rq) then rq_systemPrompt rq else None).
Proof.
  eexists. split; [reflexivity|].
  apply (gemini_route_call "key" _ (GUOk None)). reflexivity.
Defined.

(** X8: the generation route never answers with an empty [output]: when
    the model gives no text, or an empty one, the output is
    "No response generated". *)
Theorem gemini_route_output_nonempty (apiKey : string) (req : Settled GeminiRequest)
    (up : GeminiUpstream) :
  match body (fst (gemini_route apiKey req up)) with
  | JObj kvs => assoc "output" kvs <> Some (JStr "")
  | _ => True
  end.
Proof.
  destruct req as [rq|m]; simpl; [|discriminate].
  destruct (negb (truthy (rq_userMessage rq))); simpl; [discriminate|].
  destruct (String.eqb apiKey ""); simpl; [discriminate|].
  destruct up as [t|s e|m]; simpl; [|discriminate|discriminate].
  unfold or_str. destruct (String.eqb_spec (str_of t) "") as [_|Ht]; [discriminate|].
  intros H. injection H as H. by apply Ht.
Qed.

(** X9: in [runFlow], an LLM node whose [userMessage] parameter is missing
    or empty is rejected by the route without calling the model: the run
    logs "Error: userMessage is required." for it and stops. *)
Theorem llm_missing_message_stops_run (apiKey : string) (up : GeminiUpstream) (n : Node)
    (st : RunSt) :
  nodeType n = "LLM" -> param_or n "userMessage" "" = "" ->
  snd (gemini_route apiKey (Fulfilled (gemini_request_of (llm_body n))) up) = None /\
  exec_node (llm_respond apiKey up) n st =
    (push (node_entry n "Error: userMessage is required.") (mkRunSt (log st) (calls st ++ [n])),
     false).
Proof.
  intros Hty Hu. split.
  - unfold gemini_route, truthy. simpl. by rewrite Hu.
  - unfold exec_node. rewrite Hty. simpl.
    unfold call_service, llm_respond, gemini_route, truthy. simpl. rewrite Hu. reflexivity.
Qed.

Lemma llm_missing_message_stops_run_witness :
  snd (gemini_route "key" (Fulfilled (gemini_request_of (llm_body llm_bad_msg))) (GUOk None)) = None /\
  exec_node (llm_respond "key" (GUOk None)) llm_bad_msg (mkRunSt [] []) =
    (push (node_entry llm_bad_msg "Error: userMessage is required.")
       (mkRunSt (log (mkRunSt [] [])) (calls (mkRunSt [] []) ++ [llm_bad_msg])), false).
Proof. apply llm_missing_message_stops_run; reflexivity. Defined.

(** ** Structured-output clean-up *)

Lemma strip_fences_cons (a b c : ascii) (rest : list ascii) :
  strip_fences (a :: b :: c :: rest) =
  if Ascii.eqb a tick && Ascii.eqb b tick && Ascii.eqb c tick then
    match rest with
    | d :: r => if Ascii.eqb d lf then strip_fences r else strip_fences rest
    | [] => []
    end
  else a :: strip_fences (b :: c :: rest).
Proof. reflexivity. Qed.

Lemma has_fence_cons (a b c : ascii) (t : list ascii) :
  has_fence (a :: b :: c :: t) =
  (Ascii.eqb a tick && Ascii.eqb b tick && Ascii.eqb c tick) || has_fence (b :: c :: t).
Proof. reflexivity. Qed.

Lemma strip_fences_head (cs t : list ascii) (x : ascii) :
  strip_fences cs = x :: t -> x = tick -> exists t', cs = tick :: t'.
Proof.
  intros H ->. destruct cs as [|a [|b [|c rest]]]; [discriminate| | |].
  - injection H as <- _. by eexists.
  - injection H as <- _. by eexists.
  - rewrite strip_fences_cons in H. destruct (Ascii.eqb a tick && Ascii.eqb b tick && Ascii.eqb c tick) eqn:E.
    + apply andb_true_iff in E as [E _]. apply andb_true_iff in E as [E _].
      apply Ascii.eqb_eq in E as ->. by eexists.
    + injection H as <- _. by eexists.
Qed.

Lemma strip_fences_head2 (cs t : list ascii) :
  strip_fences cs = tick :: tick :: t -> exists t', cs = tick :: tick :: t'.
Proof.
  intros H. destruct cs as [|a [|b [|c rest]]]; [discriminate|discriminate| |].
  - injection H as <- <- _. by eexists.
  - rewrite strip_fences_cons in H. destruct (Ascii.eqb a tick && Ascii.eqb b tick && Ascii.eqb c tick) eqn:E.
    + apply andb_true_iff in E as [E _]. apply andb_true_iff in E as [Ea Eb].
      apply Ascii.eqb_eq in Ea as ->. apply Ascii.eqb_eq in Eb as ->. by eexists.
    + remember (strip_fences (b :: c :: rest)) as u eqn:Eu.
      injection H as Ea ->. subst a. symmetry in Eu.
      apply (strip_fences_head _ _ tick) in Eu as [t' Ht']; [|done].
      rewrite Ht'. by eexists.
Qed.

Lemma strip_fences_no_fence (cs : list ascii) : has_fence (strip_fences cs) = false.
Proof.
  induction cs as [cs IH] using (induction_ltof1 _ (@length ascii)). unfold ltof in IH.
  destruct cs as [|a [|b [|c rest]]]; [done|done|done|].
  rewrite strip_fences_cons.
  destruct (Ascii.eqb a tick && Ascii.eqb b tick && Ascii.eqb c tick) eqn:E.
  - destruct rest as [|d r]; [done|].
    destruct (Ascii.eqb d lf); apply IH; simpl; lia.
  - assert (Htl : has_fence (strip_fences (b :: c :: rest)) = false) by (apply IH; simpl; lia).
    destruct (strip_fences (b :: c :: rest)) as [|x [|y t]] eqn:S; [done|done|].
    rewrite has_fence_cons, Htl, orb_false_r.
    destruct (Ascii.eqb a tick) eqn:Ea; [|done].
    destruct (Ascii.eqb x tick) eqn:Ex; [|done].
    destruct (Ascii.eqb y tick) eqn:Ey; [|done].
    apply Ascii.eqb_eq in Ea, Ex, Ey. subst.
    apply strip_fences_head2 in S as [t' S]. injection S as -> -> _.
    rewrite Ascii.eqb_refl in E. discriminate.
Qed.

Lemma has_fence_app_l (p s : list ascii) : has_fence s = true -> has_fence (p ++ s) = true.
Proof.
  intros H. induction p as [|a p IH]; [done|].
  simpl. destruct (p ++ s) as [|b [|c t]] eqn:E; [done|done|].
  by rewrite IH, orb_true_r.
Qed.

Lemma has_fence_spec (cs : list ascii) :
  has_fence cs = true <-> exists p s, cs = p ++ [tick; tick; tick] ++ s.
Proof.
  split.
  - induction cs as [|a tl IH]; [discriminate|].
    destruct tl as [|b [|c rest]]; [discriminate|discriminate|].
    simpl. intros H. apply orb_true_iff in H as [H|H].
    + apply andb_true_iff in H as [H Ec]. apply andb_true_iff in H as [Ea Eb].
      apply Ascii.eqb_eq in Ea, Eb, Ec. subst. by exists [], rest.
    + destruct (IH H) as (p & s & E). exists (a :: p), s. by rewrite E.
  - intros (p & s & ->). apply has_fence_app_l. reflexivity.
Qed.

Lemma has_fence_rev (cs : list ascii) : has_fence (rev cs) = has_fence cs.
Proof.
  assert (forall l, has_fence l = true -> has_fence (rev l) = true) as H.
  { intros l Hl. apply has_fence_spec in Hl as (p & s & ->). apply has_fence_spec.
    exists (rev s), (rev p). rewrite !rev_app_distr. simpl. by rewrite <- !app_assoc. }
  destruct (has_fence cs) eqn:E; [by apply H|].
  destruct (has_fence (rev cs)) eqn:E'; [|done].
  apply H in E'. rewrite rev_involutive in E'. by rewrite E in E'.
Qed.

Lemma trim_start_suffix (cs : list ascii) : exists p, cs = p ++ trim_start cs.
Proof.
  induction cs as [|c cs IH]; [by exists []|]. simpl.
  destruct (is_ws c); [|by exists []]. destruct IH as [p Hp]. exists (c :: p). by rewrite Hp at 1.
Qed.

Lemma trim_start_no_fence (cs : list ascii) : has_fence cs = false -> has_fence (trim_start cs) = false.
Proof.
  intros H. destruct (has_fence (trim_start cs)) eqn:E; [|done].
  destruct (trim_start_suffix cs) as [p Hp]. rewrite Hp, (has_fence_app_l p _ E) in H.
  discriminate.
Qed.

Lemma trim_start_head (cs t : list ascii) (c : ascii) : trim_start cs = c :: t -> is_ws c = false.
Proof.
  induction cs as [|x cs IH]; simpl; [discriminate|].
  destruct (is_ws x) eqn:E; [exact IH|]. intros H. by injection H as <- _.
Qed.

Lemma trim_start_snoc (m : list ascii) (y : ascii) :
  is_ws y = false -> exists s, trim_start (m ++ [y]) = s ++ [y].
Proof.
  intros Hy. induction m as [|x m IH]; simpl.
  - rewrite Hy. by exists [].
  - destruct (is_ws x); [exact IH|]. by exists (x :: m).
Qed.

(** X10: the text the structured-output route hands to [JSON.parse] (and
    returns as [rawOutput]) never contains three backticks, and neither
    starts nor ends with white space. *)
Theorem clean_output_no_fences (text : option string) :
  has_fence (list_ascii_of_string (clean_output text)) = false /\
  (forall c t, list_ascii_of_string (clean_output text) = c :: t -> is_ws c = false) /\
  (forall c, last (list_ascii_of_string (clean_output text)) = Some c -> is_ws c = false).
Proof.
  unfold clean_output. rewrite list_ascii_of_string_of_list_ascii.
  set (l := strip_fences _). unfold js_trim, trim_end.
  split; [|split].
  - rewrite has_fence_rev. apply trim_start_no_fence. rewrite has_fence_rev.
    apply trim_start_no_fence. apply strip_fences_no_fence.
  - intros c t H. destruct (trim_start l) as [|y m] eqn:E; [discriminate|].
    pose proof (trim_start_head _ _ _ E) as Hy.
    simpl in H. destruct (trim_start_snoc (rev m) y Hy) as [s Hs].
    rewrite Hs, rev_app_distr in H. simpl in H. injection H as <- _. exact Hy.
  - intros c H.
    destruct (trim_start (rev (trim_start l))) as [|y m] eqn:E; [discriminate|].
    simpl in H. rewrite last_snoc in H. injection H as <-. by apply (trim_start_head _ m _ E).
Qed.

(** ** Vector-store route *)

Lemma pinecone_failed_status (m : string) : status (pinecone_failed m) = 500.
Proof. reflexivity. Qed.

(** The result of the route once the request is valid and the key is set:
    a failure with status 500, or a success with status 200. *)
Lemma pinecone_route_valid_status (env : PineconeEnv) (vid ts : string) (rq : PineconeRequest) :
  pe_apiKey env <> "" ->
  (str_of (pr_action rq) = "embed" /\ str_of (pr_text rq) <> "") \/
  (str_of (pr_action rq) = "search" /\ str_of (pr_query rq) <> "") ->
  status (fst (pinecone_route env vid ts (Fulfilled rq))) <> 400 /\
  snd (pinecone_route env vid ts (Fulfilled rq)) <> [].
Proof.
  intros Hk Hv. apply String.eqb_neq in Hk. unfold pinecone_route, generateEmbedding.
  rewrite Hk. unfold truthy.
  destruct Hv as [[Ha Ht]|[Ha Hq]].
  - rewrite Ha. simpl. apply String.eqb_neq in Ht. rewrite Ht. simpl.
    destruct (pe_embed env _) as [[v| |]|m]; simpl; try (split; [discriminate|discriminate]).
    destruct (pe_upsert env); simpl; split; discriminate.
  - rewrite Ha. simpl. apply String.eqb_neq in Hq. rewrite Hq. simpl.
    destruct (pe_embed env _) as [[v| |]|m]; simpl; try (split; [discriminate|discriminate]).
    destruct (pe_query env); simpl; split; discriminate.
Qed.

(** The three malformed requests. *)
Lemma pinecone_route_bad (env : PineconeEnv) (vid ts : string) (rq : PineconeRequest) :
  (str_of (pr_action rq) <> "embed" /\ str_of (pr_action rq) <> "search") \/
  (str_of (pr_action rq) = "embed" /\ str_of (pr_text rq) = "") \/
  (str_of (pr_action rq) = "search" /\ str_of (pr_query rq) = "") ->
  status (fst (pinecone_route env vid ts (Fulfilled rq))) = 400 /\
  snd (pinecone_route env vid ts (Fulfilled rq)) = [].
Proof.
  unfold pinecone_route, truthy. intros [[Ha Hs]|[[Ha Ht]|[Ha Hq]]].
  - apply String.eqb_neq in Ha, Hs. by rewrite Ha, Hs.
  - by rewrite Ha, Ht.
  - rewrite Ha, Hq. by simpl.
Qed.

(** A valid request with no key configured. *)
Lemma pinecone_route_no_key (env : PineconeEnv) (vid ts : string) (rq : PineconeRequest) :
  pe_apiKey env = "" ->
  (str_of (pr_action rq) = "embed" /\ str_of (pr_text rq) <> "") \/
  (str_of (pr_action rq) = "search" /\ str_of (pr_query rq) <> "") ->
  status (fst (pinecone_route env vid ts (Fulfilled rq))) = 500 /\
  snd (pinecone_route env vid ts (Fulfilled rq)) = [].
Proof.
  unfold pinecone_route, truthy. intros Hk [[Ha Ht]|[Ha Hq]].
  - apply String.eqb_neq in Ht. by rewrite Ha, Ht, Hk.
  - apply String.eqb_neq in Hq. rewrite Ha, Hq, Hk. by simpl.
Qed.

(** X11: the vector-store route answers 400 exactly when the action is
    neither "embed" nor "search", or when the embed text or the search
    query is missing or empty; and it sends an operation to Pinecone only
    for a valid request and a configured key. *)
Theorem pinecone_route_validation (env : PineconeEnv) (vid ts : string) (req : Settled PineconeRequest) :
  (forall rq, req = Fulfilled rq ->
     status (fst (pinecone_route env vid ts req)) = 400 <->
     (str_of (pr_action rq) <> "embed" /\ str_of (pr_action rq) <> "search") \/
     (str_of (pr_action rq) = "embed" /\ str_of (pr_text rq) = "") \/
     (str_of (pr_action rq) = "search" /\ str_of (pr_query rq) = "")) /\
  (snd (pinecone_route env vid ts req) <> [] ->
     pe_apiKey env <> "" /\
     exists rq, req = Fulfilled rq /\
       ((str_of (pr_action rq) = "embed" /\ str_of (pr_text rq) <> "") \/
        (str_of (pr_action rq) = "search" /\ str_of (pr_query rq) <> ""))).
Proof.
  assert (Hcases : forall rq : PineconeRequest,
    ((str_of (pr_action rq) <> "embed" /\ str_of (pr_action rq) <> "search") \/
     (str_of (pr_action rq) = "embed" /\ str_of (pr_text rq) = "") \/
     (str_of (pr_action rq) = "search" /\ str_of (pr_query rq) = "")) \/
    ((str_of (pr_action rq) = "embed" /\ str_of (pr_text rq) <> "") \/
     (str_of (pr_action rq) = "search" /\ str_of (pr_query rq) <> ""))).
  { intros rq.
    destruct (String.eqb_spec (str_of (pr_action rq)) "embed") as [Ha|Ha].
    - destruct (String.eqb_spec (str_of (pr_text rq)) "") as [Ht|Ht].
      + left. right. left. by split.
      + right. left. by split.
    - destruct (String.eqb_spec (str_of (pr_action rq)) "search") as [Hs|Hs].
      + destruct (String.eqb_spec (str_of (pr_query rq)) "") as [Hq|Hq].
        * left. right. right. by split.
        * right. right. by split.
      + left. left. by split. }
  split.
  - intros rq ->. split.
    + intros H400. destruct (Hcases rq) as [Hbad|Hok]; [exact Hbad|exfalso].
      destruct (String.eqb_spec (pe_apiKey env) "") as [Hk|Hk].
      * destruct (pinecone_route_no_key env vid ts rq Hk Hok) as [H500 _].
        rewrite H500 in H400. discriminate.
      * destruct (pinecone_route_valid_status env vid ts rq Hk Hok) as [Hn _]. exact (Hn H400).
    + intros Hbad. by apply pinecone_route_bad.
  - intros Hops. destruct req as [rq|m]; [|done].
    destruct (Hcases rq) as [Hbad|Hok].
    + exfalso. apply Hops. by apply pinecone_route_bad.
    + destruct (String.eqb_spec (pe_apiKey env) "") as [Hk|Hk].
      * exfalso. apply Hops. by apply pinecone_route_no_key.
      * split; [done|]. by exists rq.
Qed.

Lemma pinecone_upsert_inv (env : PineconeEnv) (vid ts : string) (rq : PineconeRequest)
    (i : string) (v : list Q) (md : list (string * string)) :
  In (PcUpsert i v md) (snd (pinecone_route env vid ts (Fulfilled rq))) ->
  i = vid /\ md = embed_metadata rq ts /\ pe_embed env (str_of (pr_text rq)) = Fulfilled (EmbDense v).
Proof.
  unfold pinecone_route.
  destruct (String.eqb (str_of (pr_action rq)) "embed").
  - destruct (negb (truthy (pr_text rq))); [simpl; tauto|].
    destruct (String.eqb (pe_apiKey env) "") eqn:Hk; [simpl; tauto|].
    unfold generateEmbedding. rewrite Hk.
    destruct (pe_embed env _) as [[w| |]|m] eqn:He; simpl; try (intros [H|[]]; discriminate).
    destruct (pe_upsert env); simpl; intros [H|[H|[]]]; try discriminate;
      injection H as -> -> ->; auto.
  - destruct (String.eqb _ "search"); [|simpl; tauto].
    destruct (negb _); [simpl; tauto|].
    destruct (String.eqb (pe_apiKey env) "") eqn:Hk; [simpl; tauto|].
    unfold generateEmbedding. rewrite Hk.
    destruct (pe_embed env _) as [[w| |]|m]; simpl; try (intros [H|[]]; discriminate).
    destruct (pe_query env); simpl; intros [H|[H|[]]]; discriminate.
Qed.

Lemma pinecone_query_inv (env : PineconeEnv) (vid ts : string) (rq : PineconeRequest)
    (v : list Q) (k : JSNum) :
  In (PcQuery v k) (snd (pinecone_route env vid ts (Fulfilled rq))) ->
  k = route_topK (pr_topK rq) /\ pe_embed env (str_of (pr_query rq)) = Fulfilled (EmbDense v).
Proof.
  unfold pinecone_route.
  destruct (String.eqb (str_of (pr_action rq)) "embed").
  - destruct (negb (truthy (pr_text rq))); [simpl; tauto|].
    destruct (String.eqb (pe_apiKey env) "") eqn:Hk; [simpl; tauto|].
    unfold generateEmbedding. rewrite Hk.
    destruct (pe_embed env _) as [[w| |]|m]; simpl; try (intros [H|[]]; discriminate).
    destruct (pe_upsert env); simpl; intros [H|[H|[]]]; discriminate.
  - destruct (String.eqb _ "search"); [|simpl; tauto].
    destruct (negb _); [simpl; tauto|].
    destruct (String.eqb (pe_apiKey env) "") eqn:Hk; [simpl; tauto|].
    unfold generateEmbedding. rewrite Hk.
    destruct (pe_embed env _) as [[w| |]|m] eqn:He; simpl; try (intros [H|[]]; discriminate).
    destruct (pe_query env); simpl; intros [H|[H|[]]]; try discriminate;
      injection H as -> ->; auto.
Qed.

Lemma substring_prefix (m : nat) (s : string) :
  exists rest, s = substring 0 m s +:+ rest /\
               String.length (substring 0 m s) = Nat.min m (String.length s).
Proof.
  revert m. induction s as [|c s IH]; intros m.
  - exists "". destruct m; simpl; split; reflexivity.
  - destruct m as [|m]; simpl.
    + exists (String c s). split; reflexivity.
    + destruct (IH m) as [rest [Hs Hl]]. exists rest.
      split; [rewrite Hs at 1; reflexivity|simpl; rewrite Hl; reflexivity].
Qed.

(** X12: every vector the vector-store route stores gets the generated id,
    the embedding of the request text, and metadata holding the first 40000
    characters of the text, the request's [nodeId] or "unknown", the
    timestamp, and each of [source], [info], [tag], [workflow] exactly when
    the request has it non-empty. *)
Theorem pinecone_upsert_metadata (env : PineconeEnv) (vid ts : string) (rq : PineconeRequest)
    (i : string) (v : list Q) (md : list (string * string)) :
  In (PcUpsert i v md) (snd (pinecone_route env vid ts (Fulfilled rq))) ->
  i = vid /\ pe_embed env (str_of (pr_text rq)) = Fulfilled (EmbDense v) /\
  (exists t rest, assoc "text" md = Some t /\ str_of (pr_text rq) = t +:+ rest /\
                  String.length t = Nat.min 40000 (String.length (str_of (pr_text rq)))) /\
  assoc "nodeId" md = Some (or_str (str_of (pr_nodeId rq)) "unknown") /\
  assoc "timestamp" md = Some ts /\
  assoc "source" md = (if truthy (pr_source rq) then Some (str_of (pr_source rq)) else None) /\
  assoc "info" md = (if truthy (pr_info rq) then Some (str_of (pr_info rq)) else None) /\
  assoc "tag" md = (if truthy (pr_tag rq) then Some (str_of (pr_tag rq)) else None) /\
  assoc "workflow" md = (if truthy (pr_workflow rq) then Some (str_of (pr_workflow rq)) else None).
Proof.
  intros H. apply pinecone_upsert_inv in H as (-> & -> & He).
  split; [done|]. split; [done|]. split.
  { destruct (substring_prefix 40000 (str_of (pr_text rq))) as (rest & Hs & Hl).
    by exists (substring 0 40000 (str_of (pr_text rq))), rest. }
  unfold embed_metadata, opt_field.
  destruct (truthy (pr_source rq)), (truthy (pr_info rq)), (truthy (pr_tag rq)),
    (truthy (pr_workflow rq)); repeat split.
Qed.

Lemma pinecone_upsert_metadata_witness :
  In (PcUpsert "emb_1" [1; 2]%Q (embed_metadata (embed_request_of embed_blank') "t0"))
     (snd (pinecone_route pc_env "emb_1" "t0" (Fulfilled (embed_request_of embed_blank')))) /\
  ("emb_1" = "emb_1" /\ pe_embed pc_env (str_of (pr_text (embed_request_of embed_blank'))) =
                        Fulfilled (EmbDense [1; 2]%Q) /\
  (exists t rest, assoc "text" (embed_metadata (embed_request_of embed_blank') "t0") = Some t /\
     str_of (pr_text (embed_request_of embed_blank')) = t +:+ rest /\
     String.length t = Nat.min 40000 (String.length (str_of (pr_text (embed_request_of embed_blank'))))) /\
  assoc "nodeId" (embed_metadata (embed_request_of embed_blank') "t0") =
    Some (or_str (str_of (pr_nodeId (embed_request_of embed_blank'))) "unknown") /\
  assoc "timestamp" (embed_metadata (embed_request_of embed_blank') "t0") = Some "t0" /\
  assoc "source" (embed_metadata (embed_request_of embed_blank') "t0") =
    (if truthy (pr_source (embed_request_of embed_blank'))
     then Some (str_of (pr_source (embed_request_of embed_blank'))) else None) /\
  assoc "info" (embed_metadata (embed_request_of embed_blank') "t0") =
    (if truthy (pr_info (embed_request_of embed_blank'))
     then Some (str_of (pr_info (embed_request_of embed_blank'))) else None) /\
  assoc "tag" (embed_metadata (embed_request_of embed_blank') "t0") =
    (if truthy (pr_tag (embed_request_of embed_blank'))
     then Some (str_of (pr_tag (embed_request_of embed_blank'))) else None) /\
  assoc "workflow" (embed_metadata (embed_request_of embed_blank') "t0") =
    (if truthy (pr_workflow (embed_request_of embed_blank'))
     then Some (str_of (pr_workflow (embed_request_of embed_blank'))) else None)).
Proof.
  assert (Hin : In (PcUpsert "emb_1" [1; 2]%Q (embed_metadata (embed_request_of embed_blank') "t0"))
     (snd (pinecone_route pc_env "emb_1" "t0" (Fulfilled (embed_request_of embed_blank'))))).
  { vm_compute. right. left. reflexivity. }
  split; [exact Hin|]. exact (pinecone_upsert_metadata _ _ _ _ _ _ _ Hin).
Defined.

(** X13: the [topK] the vector-store route passes to the query is the
    request's [parseInt(topK) || 5]: never NaN and never zero (a negative
    value is passed on). *)
Theorem pinecone_query_topK (env : PineconeEnv) (vid ts : string) (rq : PineconeRequest)
    (v : list Q) (k : JSNum) :
  In (PcQuery v k) (snd (pinecone_route env vid ts (Fulfilled rq))) ->
  k = route_topK (pr_topK rq) /\ k <> NaN /\ (forall q, k = Fin q -> ~ (q == 0)%Q).
Proof.
  intros H. apply pinecone_query_inv in H as [-> _]. split; [done|].
  unfold route_topK, num_or.
  destruct (parseInt _) as [|b|q]; [split; [discriminate|intros q' Hq'; injection Hq' as <-; discriminate]
                                    |split; discriminate|].
  destruct (Qeq_bool q 0) eqn:E.
  - split; [discriminate|]. intros q' Hq'. injection Hq' as <-. discriminate.
  - split; [discriminate|]. intros q' Hq'. injection Hq' as <-. intros Hq.
    apply Qeq_bool_iff in Hq. by rewrite Hq in E.
Qed.

Lemma pinecone_query_topK_witness :
  In (PcQuery [1; 2]%Q (route_topK (Some "0")))
     (snd (pinecone_route pc_env "emb_1" "t0" (Fulfilled (search_request_of search_zero)))) /\
  route_topK (Some "0") = route_topK (pr_topK (search_request_of search_zero)) /\
  route_topK (Some "0") <> NaN /\ (forall q, route_topK (Some "0") = Fin q -> ~ (q == 0)%Q).
Proof.
  assert (Hin : In (PcQuery [1; 2]%Q (route_topK (Some "0")))
     (snd (pinecone_route pc_env "emb_1" "t0" (Fulfilled (search_request_of search_zero))))).
  { vm_compute. right. left. reflexivity. }
  split; [exact Hin|]. exact (pinecone_query_topK _ _ _ _ _ _ Hin).
Defined.

(** X14: in [runFlow], an Embedding Generator node whose [text] parameter
    is missing or empty is rejected by the vector-store route before any
    Pinecone operation: the run logs "Error: Text is required for
    embedding" for it and stops. *)
Theorem embedding_blank_text_stops_run (env : PineconeEnv) (vid ts : string)
    (fmt : JVal -> string) (n : Node) (st : RunSt) :
  nodeType n = "Embedding Generator" -> param_or n "text" "" = "" ->
  snd (pinecone_route env vid ts (Fulfilled (embed_request_of n))) = [] /\
  exec_node (embed_respond env vid ts fmt) n st =
    (push (node_entry n "Error: Text is required for embedding")
       (mkRunSt (log st) (calls st ++ [n])), false).
Proof.
  intros Hty Ht. split.
  - unfold pinecone_route, truthy. simpl. by rewrite Ht.
  - unfold exec_node. rewrite Hty. simpl.
    unfold call_service, embed_respond, pinecone_route, truthy. simpl. rewrite Ht. reflexivity.
Qed.

Lemma embedding_blank_text_stops_run_witness :
  snd (pinecone_route pc_env "emb_1" "t0" (Fulfilled (embed_request_of embed_blank))) = [] /\
  exec_node (embed_respond pc_env "emb_1" "t0" (jstr "message")) embed_blank (mkRunSt [] []) =
    (push (node_entry embed_blank "Error: Text is required for embedding")
       (mkRunSt (log (mkRunSt [] [])) (calls (mkRunSt [] []) ++ [embed_blank])), false).
Proof. apply embedding_blank_text_stops_run; reflexivity. Defined.

(** ** Web-scraping route *)

(** X15: the web-scraping route opens no browser session unless the body
    parsed, [url] and [instruction] are both non-empty and the Browserbase
    key, the project id and the model key are all configured; a missing
    [url] or [instruction] is answered with status 400. *)
Theorem webScrape_validation (env : ScrapeEnv) (req : Settled (option string * option string)) :
  (forall url instruction, req = Fulfilled (url, instruction) ->
     (str_of url = "" \/ str_of instruction = "") ->
     fst (webScrape_route env req) =
       mkReply 400 (JObj [("success", JBool false); ("error", JStr "url and instruction are required")])
     /\ snd (webScrape_route env req) = []) /\
  (snd (webScrape_route env req) <> [] ->
     exists url instruction, req = Fulfilled (url, instruction) /\
       str_of url <> "" /\ str_of instruction <> "" /\
       se_apiKey env <> "" /\ se_projectId env <> "" /\ se_geminiKey env <> "").
Proof.
  split.
  - intros url instruction -> Hblank. unfold webScrape_route, truthy.
    destruct Hblank as [H|H]; rewrite H; simpl; [done|].
    by rewrite orb_true_r.
  - destruct req as [[url instruction]|m]; [|done]. unfold webScrape_route, truthy.
    destruct (String.eqb_spec (str_of url) "") as [Hu|Hu]; [done|].
    destruct (String.eqb_spec (str_of instruction) "") as [Hi|Hi]; [done|]. simpl.
    destruct (String.eqb_spec (se_apiKey env) "") as [Ha|Ha]; [done|].
    destruct (String.eqb_spec (se_projectId env) "") as [Hp|Hp]; [done|]. simpl.
    destruct (String.eqb_spec (se_geminiKey env) "") as [Hg|Hg]; [done|].
    intros _. by exists url, instruction.
Qed.

(** X16: the browser session is closed only on the success path: when
    navigation or extraction throws, the route answers 500 "Web scraping
    failed" with the session opened and never closed. *)
Theorem webScrape_session_left_open (env : ScrapeEnv) (url instruction : string) :
  url <> "" -> instruction <> "" ->
  se_apiKey env <> "" -> se_projectId env <> "" -> se_geminiKey env <> "" ->
  se_init env = Fulfilled tt ->
  (exists m, se_goto env = Threw m) \/ (se_goto env = Fulfilled tt /\ exists m, se_extract env = Threw m) ->
  status (fst (webScrape_route env (Fulfilled (Some url, Some instruction)))) = 500 /\
  jstr "error" (body (fst (webScrape_route env (Fulfilled (Some url, Some instruction))))) =
    "Web scraping failed" /\
  In BInit (snd (webScrape_route env (Fulfilled (Some url, Some instruction)))) /\
  ~ In BClose (snd (webScrape_route env (Fulfilled (Some url, Some instruction)))).
Proof.
  intros Hu Hi Ha Hp Hg Hinit Hfail. unfold webScrape_route, truthy. simpl.
  apply String.eqb_neq in Hu, Hi, Ha, Hp, Hg. rewrite Hu, Hi. simpl. rewrite Ha, Hp. simpl.
  rewrite Hg, Hinit.
  destruct Hfail as [[m Hgo]|[Hgo [m Hex]]].
  - rewrite Hgo. simpl. repeat split; [by left|]. intros [H|[H|[]]]; discriminate.
  - rewrite Hgo, Hex. simpl. repeat split; [by left|]. intros [H|[H|[H|[]]]]; discriminate.
Qed.

Lemma webScrape_session_left_open_witness :
  status (fst (webScrape_route scrape_nav_fails (Fulfilled (Some "https://example.com", Some "titles")))) = 500 /\
  jstr "error" (body (fst (webScrape_route scrape_nav_fails
                             (Fulfilled (Some "https://example.com", Some "titles"))))) =
    "Web scraping failed" /\
  In BInit (snd (webScrape_route scrape_nav_fails (Fulfilled (Some "https://example.com", Some "titles")))) /\
  ~ In BClose (snd (webScrape_route scrape_nav_fails (Fulfilled (Some "https://example.com", Some "titles")))).
Proof.
  apply webScrape_session_left_open; try discriminate; [reflexivity|].
  left. exists "net::ERR_NAME_NOT_RESOLVED". reflexivity.
Defined.

(** ** Connecting nodes and the resolver *)

Lemma filter_filter_impl (p q : Edge -> bool) (l : list Edge) :
  (forall x, p x = true -> q x = true) ->
  List.filter p (List.filter q l) = List.filter p l.
Proof.
  intros H. induction l as [|x l IH]; [done|]. simpl.
  destruct (q x) eqn:Eq; simpl; destruct (p x) eqn:Ep; try by rewrite IH.
  rewrite (H x Ep) in Eq. discriminate.
Qed.

Lemma filter_all (p : Edge -> bool) (l : list Edge) :
  (forall x, In x l -> p x = true) -> List.filter p l = l.
Proof.
  intros H. induction l as [|x l IH]; [done|]. simpl.
  rewrite (H x (or_introl eq_refl)). f_equal. apply IH. intros y Hy. apply H. by right.
Qed.

Lemma filter_none (p : Edge -> bool) (l : list Edge) :
  (forall x, In x l -> p x = false) -> List.filter p l = [].
Proof.
  intros H. induction l as [|x l IH]; [done|]. simpl.
  rewrite (H x (or_introl eq_refl)). apply IH. intros y Hy. apply H. by right.
Qed.

(** X17: connecting [c] twice is the same as connecting it once; after
    [onConnect c], the adjacency map the resolver walks sends [c]'s source
    to [c]'s target (to nothing when [c] lacks a source or a target), and
    sends every other node where it did before. *)
Theorem onConnect_redirects_source (c : Edge) (eds : list Edge) (s : string) :
  onConnect c (onConnect c eds) = onConnect c eds /\
  adjacencyMap (onConnect c eds) !! s =
    (if String.eqb s (source c) then
       (if String.eqb (source c) "" || String.eqb (target c) "" then None else Some (target c))
     else adjacencyMap eds !! s).
Proof.
  set (F := List.filter (fun e => negb (String.eqb (source e) (source c))) eds).
  assert (HF : forall e, In e F -> String.eqb (source e) (source c) = false).
  { intros e He. apply filter_In in He as [_ He]. by apply negb_true_iff. }
  assert (Hfix : List.filter (fun e => negb (String.eqb (source e) (source c))) F = F).
  { apply filter_all. intros e He. by rewrite (HF e He). }
  split.
  - unfold onConnect. fold F. f_equal.
    destruct (addEdge_cases c F) as [-> | ->]; [exact Hfix|].
    rewrite List.filter_app, Hfix. simpl. by rewrite String.eqb_refl, app_nil_r.
  - unfold onConnect. fold F. rewrite !adjacencyMap_lookup.
    destruct (String.eqb_spec s (source c)) as [->|Hs].
    + assert (HnF : List.filter (fun e => String.eqb (source e) (source c)) F = []).
      { apply filter_none. exact HF. }
      unfold addEdge.
      destruct (String.eqb (source c) "" || String.eqb (target c) ""); [by rewrite HnF|].
      assert (Hex : existsb (fun el => String.eqb (source el) (source c)
                                       && String.eqb (target el) (target c)) F = false).
      { apply not_true_iff_false. intros Hx. apply existsb_exists in Hx as (e & He & Hx).
        apply andb_true_iff in Hx as [Hx _]. by rewrite (HF e He) in Hx. }
      rewrite Hex, List.filter_app, HnF. simpl. by rewrite String.eqb_refl.
    + assert (Hc : List.filter (fun e => String.eqb (source e) s) [c] = []).
      { simpl. apply String.eqb_neq in Hs. by rewrite String.eqb_sym, Hs. }
      assert (HFs : List.filter (fun e => String.eqb (source e) s) F =
                    List.filter (fun e => String.eqb (source e) s) eds).
      { apply filter_filter_impl. intros x Hx. apply String.eqb_eq in Hx.
        apply negb_true_iff, String.eqb_neq. rewrite Hx. exact Hs. }
      destruct (addEdge_cases c F) as [-> | ->]; [by rewrite HFs|].
      by rewrite List.filter_app, Hc, app_nil_r, HFs.
Qed.
